(** * Frustratometer: energies, masks, decoys and frustration indices

    A shallow embedding of the numeric core of the repository:

    - [dca_frustratometer/dca_frustratometer.py]: [compute_native_energy],
      [compute_singleresidue_decoy_energy], [compute_singleresidue_frustration];
    - [frustratometer/classes/Frustratometer.py]: the [Frustratometer] wrapper
      class with its two caches ([_native_energy], [_decoy_fluctuation]).

    Floating-point numbers are idealised as real numbers ([R]); the non-finite
    values numpy produces on a division by zero are kept as a separate type
    ([fval]).  numpy arrays are a shape together with an element function;
    every indexing operation checks its indices against the shape the way
    numpy does (negative indices wrap, anything else raises [IndexError]). *)

From Stdlib Require Import Reals Lra Lia ZArith List String Ascii Bool.
From stdpp Require Import base gmap strings.
Import ListNotations.

Local Open Scope R_scope.

(** ** Python exceptions and the error monad *)

Inductive error : Type :=
| IndexError
| ValueError
| Exception (msg : string).

Definition result (A : Type) : Type := (error + A)%type.

Definition ret {A : Type} (a : A) : result A := inr a.
Definition raise {A : Type} (e : error) : result A := inl e.

Definition bind {A B : Type} (c : result A) (k : A -> result B) : result B :=
  match c with
  | inl e => inl e
  | inr a => k a
  end.

Notation "'let*' x ':=' c 'in' k" := (bind c (fun x => k))
  (at level 10, x name, c at level 100, k at level 200,
   format "'let*'  x  ':='  c  'in' '//' k").

(** ** numpy *)

Module np.

(** Finite sums: [big_sum n f] is [f 0 + ... + f (n-1)]. *)
Fixpoint big_sum (n : nat) (f : nat -> R) : R :=
  match n with
  | O => 0
  | S n' => big_sum n' f + f n'
  end.

(** [all_lt n P]: [P i] holds for every [i < n]. *)
Fixpoint all_lt (n : nat) (P : nat -> bool) : bool :=
  match n with
  | O => true
  | S n' => all_lt n' P && P n'
  end.

(** An index [k] is valid on an axis of size [d] when [-d <= k < d];
    a negative index counts from the end. *)
Definition in_bounds (d : nat) (k : Z) : bool :=
  ((- Z.of_nat d <=? k) && (k <? Z.of_nat d))%Z.

Definition wrap (d : nat) (k : Z) : nat :=
  Z.to_nat (if (k <? 0)%Z then k + Z.of_nat d else k)%Z.

(** Arrays of rank 1 to 5: a shape and the element at each position. *)
Record arr1 (A : Type) : Type := Arr1 { len1 : nat; at1 : nat -> A }.
Record arr2 (A : Type) : Type :=
  Arr2 { rows2 : nat; cols2 : nat; at2 : nat -> nat -> A }.
Record arr3 (A : Type) : Type :=
  Arr3 { shape3 : nat * nat * nat; at3 : nat -> nat -> nat -> A }.
Record arr4 (A : Type) : Type :=
  Arr4 { shape4 : nat * nat * nat * nat;
         at4 : nat -> nat -> nat -> nat -> A }.
Record arr5 (A : Type) : Type :=
  Arr5 { shape5 : nat * nat * nat * nat * nat;
         at5 : nat -> nat -> nat -> nat -> nat -> A }.

Arguments Arr1 {A}.
Arguments len1 {A}.
Arguments at1 {A}.
Arguments Arr2 {A}.
Arguments rows2 {A}.
Arguments cols2 {A}.
Arguments at2 {A}.
Arguments Arr3 {A}.
Arguments shape3 {A}.
Arguments at3 {A}.
Arguments Arr4 {A}.
Arguments shape4 {A}.
Arguments at4 {A}.
Arguments Arr5 {A}.
Arguments shape5 {A}.
Arguments at5 {A}.

(** Index arrays carry their dtype: an array of floats is refused as an
    index even when it is empty. *)
Inductive dtype : Type := int64 | float64.

Record iarr1 : Type := IArr1 { dtype1 : dtype; idx1 : arr1 Z }.
Record iarr3 : Type := IArr3 { dtype3 : dtype; idx3 : arr3 Z }.

Definition is_int (d : dtype) : bool :=
  match d with int64 => true | float64 => false end.

(** [np.array(l)] for a list of Python ints: the dtype is inferred from
    the elements, and an empty list gives the default dtype, float64. *)
Definition array (l : list Z) : iarr1 :=
  {| dtype1 := match l with [] => float64 | _ :: _ => int64 end;
     idx1 := Arr1 (length l) (fun i => nth i l 0%Z) |}.

(** [range(n)] used as an index (an empty range is a valid index). *)
Definition range (n : nat) : iarr1 :=
  {| dtype1 := int64; idx1 := Arr1 n (fun i => Z.of_nat i) |}.

Definition ilen (a : iarr1) : nat := len1 (idx1 a).
Definition iat (a : iarr1) (i : nat) : Z := at1 (idx1 a) i.

Definition all3 (s : nat * nat * nat) (P : nat -> nat -> nat -> bool) : bool :=
  let '(d0, d1, d2) := s in
  all_lt d0 (fun p => all_lt d1 (fun a => all_lt d2 (fun k => P p a k))).

Definition shape3_eqb (s t : nat * nat * nat) : bool :=
  let '(a0, a1, a2) := s in
  let '(b0, b1, b2) := t in
  (a0 =? b0)%nat && (a1 =? b1)%nat && (a2 =? b2)%nat.

(** *** Advanced ("fancy") indexing, one function per index pattern *)

(** [A[I0, I1]] with two index vectors: entry [k] is [A[I0[k], I1[k]]]. *)
Definition take2 (A : arr2 R) (I0 I1 : iarr1) : result (arr1 R) :=
  if negb (is_int (dtype1 I0) && is_int (dtype1 I1)) then raise IndexError
  else if negb (ilen I0 =? ilen I1)%nat then raise IndexError
  else if negb (all_lt (ilen I0) (fun k =>
                  in_bounds (rows2 A) (iat I0 k)
                  && in_bounds (cols2 A) (iat I1 k)))
  then raise IndexError
  else ret (Arr1 (ilen I0) (fun k =>
              at2 A (wrap (rows2 A) (iat I0 k)) (wrap (cols2 A) (iat I1 k)))).

(** [A[I0, :, I2, :]]: the two index vectors are separated by a slice, so
    the indexed axis comes first: entry [(k, m, b)] is
    [A[I0[k], m, I2[k], b]]. *)
Definition take4_02 (A : arr4 R) (I0 I2 : iarr1) : result (arr3 R) :=
  let '(d0, d1, d2, d3) := shape4 A in
  if negb (is_int (dtype1 I0) && is_int (dtype1 I2)) then raise IndexError
  else if negb (ilen I0 =? ilen I2)%nat then raise IndexError
  else if negb (all_lt (ilen I0) (fun k =>
                  in_bounds d0 (iat I0 k) && in_bounds d2 (iat I2 k)))
  then raise IndexError
  else ret (Arr3 (ilen I0, d1, d3) (fun k m b =>
              at4 A (wrap d0 (iat I0 k)) m (wrap d2 (iat I2 k)) b)).

(** [X[:, I1, I2]]: adjacent index vectors stay in place: entry [(k, m)]
    is [X[k, I1[m], I2[m]]]. *)
Definition take3_12 (X : arr3 R) (I1 I2 : iarr1) : result (arr2 R) :=
  let '(d0, d1, d2) := shape3 X in
  if negb (is_int (dtype1 I1) && is_int (dtype1 I2)) then raise IndexError
  else if negb (ilen I1 =? ilen I2)%nat then raise IndexError
  else if negb (all_lt (ilen I1) (fun m =>
                  in_bounds d1 (iat I1 m) && in_bounds d2 (iat I2 m)))
  then raise IndexError
  else ret (Arr2 d0 (ilen I1) (fun k m =>
              at3 X k (wrap d1 (iat I1 m)) (wrap d2 (iat I2 m)))).

(** [A[I0, I1]] with two rank-3 index arrays of one shape. *)
Definition take2_3 (A : arr2 R) (I0 I1 : iarr3) : result (arr3 R) :=
  let i0 := idx3 I0 in
  let i1 := idx3 I1 in
  if negb (is_int (dtype3 I0) && is_int (dtype3 I1)) then raise IndexError
  else if negb (shape3_eqb (shape3 i0) (shape3 i1)) then raise IndexError
  else if negb (all3 (shape3 i0) (fun p a k =>
                  in_bounds (rows2 A) (at3 i0 p a k)
                  && in_bounds (cols2 A) (at3 i1 p a k)))
  then raise IndexError
  else ret (Arr3 (shape3 i0) (fun p a k =>
              at2 A (wrap (rows2 A) (at3 i0 p a k))
                    (wrap (cols2 A) (at3 i1 p a k)))).

(** [A[I0, :, I2, :]] with rank-3 index arrays: entry [(p, a, k, m, b)] is
    [A[I0[p,a,k], m, I2[p,a,k], b]]. *)
Definition take4_02_3 (A : arr4 R) (I0 I2 : iarr3) : result (arr5 R) :=
  let '(d0, d1, d2, d3) := shape4 A in
  let i0 := idx3 I0 in
  let i2 := idx3 I2 in
  if negb (is_int (dtype3 I0) && is_int (dtype3 I2)) then raise IndexError
  else if negb (shape3_eqb (shape3 i0) (shape3 i2)) then raise IndexError
  else if negb (all3 (shape3 i0) (fun p a k =>
                  in_bounds d0 (at3 i0 p a k) && in_bounds d2 (at3 i2 p a k)))
  then raise IndexError
  else
    let '(n0, n1, n2) := shape3 i0 in
    ret (Arr5 (n0, n1, n2, d1, d3) (fun p a k m b =>
           at4 A (wrap d0 (at3 i0 p a k)) m (wrap d2 (at3 i2 p a k)) b)).

(** [X[I0, I1, :, I3, I4]] with rank-3 index arrays: the slice separates
    the index arrays, so their axes come first and the sliced axis last:
    entry [(p, a, k, q)] is
    [X[I0[p,a,k], I1[p,a,k], q, I3[p,a,k], I4[p,a,k]]]. *)
Definition take5_0134 (X : arr5 R) (I0 I1 I3 I4 : iarr3)
  : result (arr4 R) :=
  let '(d0, d1, d2, d3, d4) := shape5 X in
  let i0 := idx3 I0 in
  let i1 := idx3 I1 in
  let i3 := idx3 I3 in
  let i4 := idx3 I4 in
  if negb (is_int (dtype3 I0) && is_int (dtype3 I1)
           && is_int (dtype3 I3) && is_int (dtype3 I4))
  then raise IndexError
  else if negb (shape3_eqb (shape3 i0) (shape3 i1)
                && shape3_eqb (shape3 i0) (shape3 i3)
                && shape3_eqb (shape3 i0) (shape3 i4))
  then raise IndexError
  else if negb (all3 (shape3 i0) (fun p a k =>
                  in_bounds d0 (at3 i0 p a k) && in_bounds d1 (at3 i1 p a k)
                  && in_bounds d3 (at3 i3 p a k)
                  && in_bounds d4 (at3 i4 p a k)))
  then raise IndexError
  else
    let '(n0, n1, n2) := shape3 i0 in
    ret (Arr4 (n0, n1, n2, d2) (fun p a k q =>
           at5 X (wrap d0 (at3 i0 p a k)) (wrap d1 (at3 i1 p a k)) q
                 (wrap d3 (at3 i3 p a k)) (wrap d4 (at3 i4 p a k)))).

(** *** Broadcasting *)

(** Two axis sizes broadcast when they are equal or one of them is 1. *)
Definition bdim (a b : nat) : option nat :=
  if (a =? b)%nat then Some a
  else if (a =? 1)%nat then Some b
  else if (b =? 1)%nat then Some a
  else None.

(** The position read on an axis of size [d] for position [i] of the
    broadcast result. *)
Definition bidx (d i : nat) : nat := if (d =? 1)%nat then 0%nat else i.

(** *** Elementwise operations *)

Definition neg1 (a : arr1 R) : arr1 R := Arr1 (len1 a) (fun i => - at1 a i).
Definition neg2 (a : arr2 R) : arr2 R :=
  Arr2 (rows2 a) (cols2 a) (fun i j => - at2 a i j).
Definition neg3 (a : arr3 R) : arr3 R :=
  Arr3 (shape3 a) (fun p q r => - at3 a p q r).
Definition neg4 (a : arr4 R) : arr4 R :=
  Arr4 (shape4 a) (fun p q r s => - at4 a p q r s).

Definition ones (n m : nat) : arr2 R := Arr2 n m (fun _ _ => 1).

Definition gt_scalar (a : arr2 R) (c : R) : arr2 bool :=
  Arr2 (rows2 a) (cols2 a)
       (fun i j => if Rlt_dec c (at2 a i j) then true else false).

Definition le_scalar (a : arr2 R) (c : R) : arr2 bool :=
  Arr2 (rows2 a) (cols2 a)
       (fun i j => if Rle_dec (at2 a i j) c then true else false).

Definition of_bool (b : bool) : R := if b then 1 else 0.

(** [a *= b] for a float array [a] and a boolean array [b]: in place, so
    [b] has to broadcast to the shape of [a]. *)
Definition imul2 (a : arr2 R) (b : arr2 bool) : result (arr2 R) :=
  if ((rows2 b =? rows2 a)%nat || (rows2 b =? 1)%nat)
     && ((cols2 b =? cols2 a)%nat || (cols2 b =? 1)%nat)
  then ret (Arr2 (rows2 a) (cols2 a) (fun i j =>
              at2 a i j * of_bool (at2 b (bidx (rows2 b) i)
                                         (bidx (cols2 b) j))))
  else raise ValueError.

(** [a * b] for two matrices. *)
Definition mul2 (a b : arr2 R) : result (arr2 R) :=
  match bdim (rows2 a) (rows2 b), bdim (cols2 a) (cols2 b) with
  | Some r, Some c =>
      ret (Arr2 r c (fun i j =>
             at2 a (bidx (rows2 a) i) (bidx (cols2 a) j)
             * at2 b (bidx (rows2 b) i) (bidx (cols2 b) j)))
  | _, _ => raise ValueError
  end.

(** [a + b] for two matrices. *)
Definition add2 (a b : arr2 R) : result (arr2 R) :=
  match bdim (rows2 a) (rows2 b), bdim (cols2 a) (cols2 b) with
  | Some r, Some c =>
      ret (Arr2 r c (fun i j =>
             at2 a (bidx (rows2 a) i) (bidx (cols2 a) j)
             + at2 b (bidx (rows2 b) i) (bidx (cols2 b) j)))
  | _, _ => raise ValueError
  end.

(** [a * b] for a rank-4 array and a matrix: the matrix broadcasts over
    the two trailing axes. *)
Definition mul4_2 (a : arr4 R) (b : arr2 R) : result (arr4 R) :=
  let '(d0, d1, d2, d3) := shape4 a in
  match bdim d2 (rows2 b), bdim d3 (cols2 b) with
  | Some r, Some c =>
      ret (Arr4 (d0, d1, r, c) (fun p q i j =>
             at4 a p q (bidx d2 i) (bidx d3 j)
             * at2 b (bidx (rows2 b) i) (bidx (cols2 b) j)))
  | _, _ => raise ValueError
  end.

Definition div_scalar2 (a : arr2 R) (c : R) : arr2 R :=
  Arr2 (rows2 a) (cols2 a) (fun i j => at2 a i j / c).

(** *** Reductions *)

Definition sum1 (a : arr1 R) : R := big_sum (len1 a) (at1 a).

Definition sum2 (a : arr2 R) : R :=
  big_sum (rows2 a) (fun i => big_sum (cols2 a) (fun j => at2 a i j)).

(** [a.sum(axis=-1)] *)
Definition sum_last2 (a : arr2 R) : arr1 R :=
  Arr1 (rows2 a) (fun i => big_sum (cols2 a) (fun j => at2 a i j)).

Definition sum_last3 (a : arr3 R) : arr2 R :=
  let '(d0, d1, d2) := shape3 a in
  Arr2 d0 d1 (fun p q => big_sum d2 (fun k => at3 a p q k)).

Definition sum_last4 (a : arr4 R) : arr3 R :=
  let '(d0, d1, d2, d3) := shape4 a in
  Arr3 (d0, d1, d2) (fun p q r => big_sum d3 (fun k => at4 a p q r k)).

(** *** Non-finite results *)

(** What a float64 computation can yield: a number, an infinity or NaN. *)
Inductive fval : Type :=
| Fin (x : R)
| PosInf
| NegInf
| NaN.

(** [np.sqrt]: NaN on a negative argument. *)
Definition sqrt (x : R) : fval :=
  if Rlt_dec x 0 then NaN else Fin (R_sqrt.sqrt x).

(** [x / y] for a finite [x]: a zero divisor gives NaN for [0 / 0] and an
    infinity with the sign of [x] otherwise (the divisor is a positive
    zero: it comes out of [np.sqrt]); numpy raises nothing. *)
Definition divide (x : R) (y : fval) : fval :=
  match y with
  | Fin y' =>
      if Req_dec_T y' 0
      then (if Req_dec_T x 0 then NaN
            else if Rlt_dec 0 x then PosInf else NegInf)
      else Fin (x / y')
  | PosInf | NegInf => Fin 0
  | NaN => NaN
  end.

End np.

(** ** dca_frustratometer/dca_frustratometer.py *)

Module dca_frustratometer.
Import np.

(** The dictionary [load_potts_model] returns: the fields [h] and the
    couplings [J]. *)
Record PottsModel : Type := { h : arr2 R; J : arr4 R }.

Definition AA : string := "-ACDEFGHIKLMNPQRSTVWY".

(** [s.find(c)] for a one-character string [c]: the position of its first
    occurrence in [s], or -1. *)
Fixpoint find_from (s : string) (c : ascii) (i : Z) : Z :=
  match s with
  | EmptyString => (-1)%Z
  | String d s' => if Ascii.eqb c d then i else find_from s' c (i + 1)%Z
  end.

Definition find (s : string) (c : ascii) : Z := find_from s c 0%Z.

(** [np.array([AA.find(aa) for aa in seq])] *)
Definition seq_index_of (seq : string) : iarr1 :=
  array (map (find AA) (list_ascii_of_string seq)).

(** [sdist.squareform(sdist.pdist(np.arange(seq_len)[:, np.newaxis]))]:
    the distance [|i - j|] between sequence positions. *)
Definition sequence_distance (seq_len : nat) : arr2 R :=
  Arr2 seq_len seq_len
       (fun i j => IZR (Z.abs (Z.of_nat i - Z.of_nat j))).

(** The mask both energy functions build (the same five statements in
    each): all ones, then multiplied in place by each filter that is set. *)
Definition interaction_mask (seq_len : nat) (distance_matrix : arr2 R)
    (distance_cutoff : option R) (sequence_distance_cutoff : option Z)
  : result (arr2 R) :=
  let mask := ones seq_len seq_len in
  let* mask :=
    match sequence_distance_cutoff with
    | Some c =>
        imul2 mask (gt_scalar (sequence_distance seq_len) (IZR c))
    | None => ret mask
    end in
  let* mask :=
    match distance_cutoff with
    | Some c => imul2 mask (le_scalar distance_matrix c)
    | None => ret mask
    end in
  ret mask.

Definition compute_native_energy (seq : string) (potts_model : PottsModel)
    (distance_matrix : arr2 R) (distance_cutoff : option R)
    (sequence_distance_cutoff : option Z) : result R :=
  let seq_index := seq_index_of seq in
  let seq_len := ilen seq_index in
  let* h0 := take2 (h potts_model) (range seq_len) seq_index in
  let h := neg1 h0 in
  let* j0 := take4_02 (J potts_model) (range seq_len) seq_index in
  let* j1 := take3_12 j0 (range seq_len) seq_index in
  let j := neg2 j1 in
  let* mask := interaction_mask seq_len distance_matrix distance_cutoff
                                sequence_distance_cutoff in
  let* j_prime := mul2 j mask in
  let energy := sum1 h + sum2 j_prime / 2 in
  ret energy.

(** [np.repeat(np.repeat(np.array(seq_index)[np.newaxis, np.newaxis, :],
    21, 1), seq_len, 0)] *)
Definition repeat_seq_index (seq_index : iarr1) (seq_len : nat) : iarr3 :=
  {| dtype3 := dtype1 seq_index;
     idx3 := Arr3 (seq_len, 21%nat, ilen seq_index)
                  (fun _ _ k => iat seq_index k) |}.

(** [decoys[range(seq_len), i, range(seq_len)] = i] *)
Definition set_mutation (seq_len : nat) (decoys : iarr3) (i : nat) : iarr3 :=
  {| dtype3 := dtype3 decoys;
     idx3 := Arr3 (shape3 (idx3 decoys))
                  (fun p a k =>
                     if (p <? seq_len)%nat && (a =? i)%nat && (k =? p)%nat
                     then Z.of_nat i
                     else at3 (idx3 decoys) p a k) |}.

(** "Create decoys": the native indices repeated for every position and
    symbol, then the loop [for i in range(21)] writing the mutation. *)
Definition create_decoys (seq_index : iarr1) (seq_len : nat) : iarr3 :=
  let decoys := repeat_seq_index seq_index seq_len in
  fold_left (set_mutation seq_len) (List.seq 0%nat 21%nat) decoys.

(** The three arrays of [np.meshgrid(range(seq_len), range(21),
    range(seq_len), indexing='ij')]. *)
Definition meshgrid (seq_len : nat) : iarr3 * iarr3 * iarr3 :=
  let s := (seq_len, 21%nat, seq_len) in
  (IArr3 int64 (Arr3 s (fun p _ _ => Z.of_nat p)),
   IArr3 int64 (Arr3 s (fun _ a _ => Z.of_nat a)),
   IArr3 int64 (Arr3 s (fun _ _ k => Z.of_nat k))).

Definition compute_singleresidue_decoy_energy (seq : string)
    (potts_model : PottsModel) (distance_matrix : arr2 R)
    (distance_cutoff : option R) (sequence_distance_cutoff : option Z)
  : result (arr2 R) :=
  let seq_index := seq_index_of seq in
  let seq_len := ilen seq_index in
  let decoys := create_decoys seq_index seq_len in
  (* Position of mutation, Mutation, position in sequence *)
  let '(mut_pos, mut_aa, seq_pos) := meshgrid seq_len in
  (* Compute energy *)
  let* h0 := take2_3 (h potts_model) seq_pos decoys in
  let h_decoy := neg3 h0 in
  let* j0 := take4_02_3 (J potts_model) seq_pos decoys in
  let* j1 := take5_0134 j0 mut_pos mut_aa seq_pos decoys in
  let j_decoy := neg4 j1 in
  let* mask := interaction_mask seq_len distance_matrix distance_cutoff
                                sequence_distance_cutoff in
  let* j_decoy_prime := mul4_2 j_decoy mask in
  let* decoy_energy :=
    add2 (sum_last3 h_decoy)
         (div_scalar2 (sum_last3 (sum_last4 j_decoy_prime)) 2) in
  ret decoy_energy.

(** [a * m] for a vector [a] and a matrix [m]: the vector broadcasts along
    the last axis. *)
Definition mul1_2 (a : arr1 R) (m : arr2 R) : result (arr2 R) :=
  match bdim (len1 a) (cols2 m) with
  | Some c =>
      ret (Arr2 (rows2 m) c (fun i j =>
             at1 a (bidx (len1 a) j) * at2 m i (bidx (cols2 m) j)))
  | None => raise ValueError
  end.

(** [m - v[:, np.newaxis]] for a vector [v] with one entry per row. *)
Definition sub_column (m : arr2 R) (v : arr1 R) : arr2 R :=
  Arr2 (rows2 m) (cols2 m) (fun i j => at2 m i j - at1 v i).

Definition square2 (m : arr2 R) : arr2 R :=
  Arr2 (rows2 m) (cols2 m) (fun i j => at2 m i j * at2 m i j).

Definition div_scalar1 (a : arr1 R) (c : R) : arr1 R :=
  Arr1 (len1 a) (fun i => at1 a i / c).

(** With a zero total weight the mean is [x / 0], an infinity or NaN, and
    it turns every later value of its row into NaN: the deviations are
    infinite, their weighted sum adds infinities of both signs (weights
    of both signs add up to zero) or a product [0 * inf]. *)
Definition compute_singleresidue_frustration (decoy_energy : arr2 R)
    (native_energy : R) (aa_freq : option (arr1 R)) : result (arr1 fval) :=
  let aa_freq :=
    match aa_freq with
    | None => Arr1 21%nat (fun _ => 1)
    | Some w => w
    end in
  let total := sum1 aa_freq in
  let* weighted := mul1_2 aa_freq decoy_energy in
  let mean_energy := div_scalar1 (sum_last2 weighted) total in
  let* spread :=
    mul1_2 aa_freq (square2 (sub_column decoy_energy mean_energy)) in
  let variance := sum_last2 (div_scalar2 spread total) in
  let std_energy := Arr1 (len1 variance) (fun i => np.sqrt (at1 variance i)) in
  let frustration :=
    Arr1 (len1 mean_energy)
         (fun i =>
            if Req_dec_T total 0 then NaN
            else divide (native_energy - at1 mean_energy i)
                        (at1 std_energy i)) in
  ret frustration.

End dca_frustratometer.

(** ** frustratometer/frustration: the functions the class calls

    The class [Frustratometer] delegates every computation to the module
    [frustration]; the wrapper is written against this interface. *)

Module frustration.
Import np dca_frustratometer.

(** Fluctuation tensors: L x 21 for the singleresidue kind and
    L x L x 21 x 21 for the pair kinds. *)
Inductive ndarray : Type :=
| Rank2 (a : arr2 R)
| Rank4 (a : arr4 R).

Class api : Type := {
  compute_native_energy :
    string -> PottsModel -> arr2 R -> bool -> bool -> result R;
  compute_fields_energy : string -> PottsModel -> bool -> result R;
  compute_couplings_energy :
    string -> PottsModel -> arr2 R -> bool -> result R;
  compute_singleresidue_decoy_energy_fluctuation :
    string -> PottsModel -> arr2 R -> result (arr2 R);
  compute_mutational_decoy_energy_fluctuation :
    string -> PottsModel -> arr2 R -> result (arr4 R);
  compute_configurational_decoy_energy_fluctuation :
    string -> PottsModel -> arr2 R -> result (arr4 R);
  compute_contact_decoy_energy_fluctuation :
    string -> PottsModel -> arr2 R -> result (arr4 R)
}.

(** The symbol index of position [i] of a sequence, read the way the
    repository reads sequences: the position of the letter in [AA], an
    unlisted letter falling on the last symbol. *)
Definition symbol (seq : string) (i : nat) : nat :=
  wrap 21 (nth i (map (find AA) (list_ascii_of_string seq)) 0%Z).

Definition is_gap (seq : string) (i : nat) : bool := (symbol seq i =? 0)%nat.

(** One field term and one coupling term of the energy, with the model
    values negated and the gap flags applied. *)
Definition field_term (seq : string) (m : PottsModel) (ignore_gaps : bool)
    (i : nat) : R :=
  if ignore_gaps && is_gap seq i then 0
  else - at2 (h m) i (symbol seq i).

Definition coupling_term (seq : string) (m : PottsModel) (mask : arr2 R)
    (ignore_gaps : bool) (i j : nat) : R :=
  if ignore_gaps && (is_gap seq i || is_gap seq j) then 0
  else - at4 (J m) i j (symbol seq i) (symbol seq j) * at2 mask i j.

Definition check_length {A : Type} (seq : string) (m : PottsModel)
    (k : nat -> result A) : result A :=
  let L := String.length seq in
  if (L =? rows2 (h m))%nat then k L else raise ValueError.

(** Modelled from the spec: frustration.compute_native_energy is not among
    the sources.  Section 4.2: E = sum_i h[i, seq[i]] + (1/2) sum_{i,j}
    J[i,j,seq[i],seq[j]] * mask[i,j] on the negated model values; with a
    gap flag set, the fields of gap positions, or the couplings with a gap
    partner, are zeroed; a sequence of the wrong length is an error. *)
Definition spec_native_energy (seq : string) (m : PottsModel)
    (mask : arr2 R) (ignore_couplings_of_gaps ignore_fields_of_gaps : bool)
  : result R :=
  check_length seq m (fun L =>
    ret (big_sum L (field_term seq m ignore_fields_of_gaps)
         + big_sum L (fun i =>
             big_sum L (coupling_term seq m mask ignore_couplings_of_gaps i))
           / 2)).

(** Modelled from the spec: frustration.compute_fields_energy is not among
    the sources.  Section 4.2: the field-only variant exposes the first
    summand of the energy. *)
Definition spec_fields_energy (seq : string) (m : PottsModel)
    (ignore_fields_of_gaps : bool) : result R :=
  check_length seq m (fun L =>
    ret (big_sum L (field_term seq m ignore_fields_of_gaps))).

(** Modelled from the spec: frustration.compute_couplings_energy is not
    among the sources.  Section 4.2: the coupling-only variant exposes the
    second summand of the energy. *)
Definition spec_couplings_energy (seq : string) (m : PottsModel)
    (mask : arr2 R) (ignore_couplings_of_gaps : bool) : result R :=
  check_length seq m (fun L =>
    ret (big_sum L (fun i =>
           big_sum L (coupling_term seq m mask ignore_couplings_of_gaps i))
         / 2)).

(** Modelled from the spec:
    frustration.compute_singleresidue_decoy_energy_fluctuation is not among
    the sources.  Section 4.3: fluctuation[i,a] = [h[i,a] - h[i,seq[i]]]
    + sum_{j != i} [J[i,j,a,seq[j]] - J[i,j,seq[i],seq[j]]] * mask[i,j],
    on the negated model values. *)
Definition spec_singleresidue_fluctuation (seq : string) (m : PottsModel)
    (mask : arr2 R) : result (arr2 R) :=
  check_length seq m (fun L =>
    ret (Arr2 L 21%nat (fun i a =>
           (- at2 (h m) i a - - at2 (h m) i (symbol seq i))
           + big_sum L (fun j =>
               if (j =? i)%nat then 0
               else (- at4 (J m) i j a (symbol seq j)
                     - - at4 (J m) i j (symbol seq i) (symbol seq j))
                    * at2 mask i j)))).

(** The interface with every function the spec pins down by a formula;
    the three pair kinds stay parameters. *)
Definition spec_api
    (mutational configurational contact :
       string -> PottsModel -> arr2 R -> result (arr4 R)) : api :=
  {| compute_native_energy := spec_native_energy;
     compute_fields_energy := spec_fields_energy;
     compute_couplings_energy := spec_couplings_energy;
     compute_singleresidue_decoy_energy_fluctuation :=
       spec_singleresidue_fluctuation;
     compute_mutational_decoy_energy_fluctuation := mutational;
     compute_configurational_decoy_energy_fluctuation := configurational;
     compute_contact_decoy_energy_fluctuation := contact |}.

End frustration.

(** ** frustratometer/classes/Frustratometer.py *)

Module Frustratometer.
Import np dca_frustratometer frustration.

(** The attributes the methods below read and write. *)
Record t : Type := {
  sequence : string;
  potts_model : PottsModel;
  mask : arr2 R;
  _native_energy : option R;
  _decoy_fluctuation : gmap string ndarray
}.

Definition set_native_energy (self : t) (e : R) : t :=
  {| sequence := sequence self; potts_model := potts_model self;
     mask := mask self; _native_energy := Some e;
     _decoy_fluctuation := _decoy_fluctuation self |}.

Definition set_decoy_fluctuation (self : t) (kind : string)
    (fluctuation : ndarray) : t :=
  {| sequence := sequence self; potts_model := potts_model self;
     mask := mask self; _native_energy := _native_energy self;
     _decoy_fluctuation := <[kind := fluctuation]> (_decoy_fluctuation self) |}.

(** A new object: nothing cached. *)
Definition init (sequence : string) (potts_model : PottsModel)
    (mask : arr2 R) : t :=
  {| sequence := sequence; potts_model := potts_model; mask := mask;
     _native_energy := None; _decoy_fluctuation := ∅ |}.

(** [not x] for the attribute [_native_energy]: true on [None] and on a
    zero energy. *)
Definition not_ (x : option R) : bool :=
  match x with
  | None => true
  | Some e => if Req_dec_T e 0 then true else false
  end.

Section methods.
Context `{frustration.api}.

Definition native_energy (self : t) (sequence : option string)
    (ignore_couplings_of_gaps ignore_fields_of_gaps : bool)
  : result (t * R) :=
  match sequence with
  | Some sequence =>
      let* e := compute_native_energy sequence (potts_model self)
                  (mask self) ignore_couplings_of_gaps
                  ignore_fields_of_gaps in
      ret (self, e)
  | None =>
      let sequence := Frustratometer.sequence self in
      match _native_energy self with
      | Some e =>
          if not_ (Some e)
          then
            let* e' := compute_native_energy sequence (potts_model self)
                         (mask self) ignore_couplings_of_gaps
                         ignore_fields_of_gaps in
            ret (set_native_energy self e', e')
          else ret (self, e)
      | None =>
          let* e' := compute_native_energy sequence (potts_model self)
                       (mask self) ignore_couplings_of_gaps
                       ignore_fields_of_gaps in
          ret (set_native_energy self e', e')
      end
  end.

Definition fields_energy (self : t) (sequence : option string)
    (ignore_fields_of_gaps : bool) : result (t * R) :=
  let sequence := default (Frustratometer.sequence self) sequence in
  let* fields_energy :=
    compute_fields_energy sequence (potts_model self)
                          ignore_fields_of_gaps in
  ret (self, fields_energy).

Definition couplings_energy (self : t) (sequence : option string)
    (ignore_couplings_of_gaps : bool) : result (t * R) :=
  let sequence := default (Frustratometer.sequence self) sequence in
  let* couplings_energy :=
    compute_couplings_energy sequence (potts_model self) (mask self)
                             ignore_couplings_of_gaps in
  ret (self, couplings_energy).

(** The computation the four branches on [kind] select. *)
Definition compute_fluctuation (kind sequence : string)
    (potts_model : PottsModel) (mask : arr2 R) : result ndarray :=
  if String.eqb kind "singleresidue" then
    let* f := compute_singleresidue_decoy_energy_fluctuation
                sequence potts_model mask in ret (Rank2 f)
  else if String.eqb kind "mutational" then
    let* f := compute_mutational_decoy_energy_fluctuation
                sequence potts_model mask in ret (Rank4 f)
  else if String.eqb kind "configurational" then
    let* f := compute_configurational_decoy_energy_fluctuation
                sequence potts_model mask in ret (Rank4 f)
  else if String.eqb kind "contact" then
    let* f := compute_contact_decoy_energy_fluctuation
                sequence potts_model mask in ret (Rank4 f)
  else raise (Exception "Wrong kind of decoy generation selected").

Definition decoy_fluctuation (self : t) (sequence : option string)
    (kind : string) (mask : option (arr2 R)) : result (t * ndarray) :=
  let cached :=
    match sequence with
    | None => _decoy_fluctuation self !! kind
    | Some _ => None
    end in
  match cached with
  | Some fluctuation => ret (self, fluctuation)
  | None =>
      let sequence := default (Frustratometer.sequence self) sequence in
      let mask := default (Frustratometer.mask self) mask in
      let* fluctuation :=
        compute_fluctuation kind sequence (potts_model self) mask in
      ret (set_decoy_fluctuation self kind fluctuation, fluctuation)
  end.

(** [e + f] for a scalar and a tensor. *)
Definition add_scalar (e : R) (f : ndarray) : ndarray :=
  match f with
  | Rank2 a => Rank2 (Arr2 (rows2 a) (cols2 a) (fun i j => e + at2 a i j))
  | Rank4 a => Rank4 (Arr4 (shape4 a) (fun i j k l => e + at4 a i j k l))
  end.

Definition decoy_energy (self : t) (kind : string)
    (sequence : option string) : result (t * ndarray) :=
  let sequence := default (Frustratometer.sequence self) sequence in
  let* r1 := native_energy self (Some sequence) false false in
  let* r2 := decoy_fluctuation (fst r1) (Some sequence) kind None in
  ret (fst r2, add_scalar (snd r1) (snd r2)).

End methods.

End Frustratometer.

(** ** dca_frustratometer/dca_frustratometer.py: the other functions *)

Module dca_frustratometer_rest.
Import np dca_frustratometer.

(** [np.array([(seq_index == i).sum() for i in range(21)])]: how often each
    of the 21 symbol indices occurs (the counts are integers; they enter
    the float computations as the numbers they are). *)
Definition compute_aa_freq (seq_index : iarr1) : arr1 R :=
  Arr1 21 (fun i =>
    big_sum (ilen seq_index)
            (fun k => of_bool (iat seq_index k =? Z.of_nat i)%Z)).

(** What [get_protein_sequence_from_pdb] reads of a residue of the parsed
    structure: its name, whether it has an atom "CA", and the id of its
    chain. *)
Record Residue : Type := {
  resname : string;
  has_CA : bool;
  parent_id : string
}.

Definition Letter_code : gmap string ascii :=
  list_to_map
    [("ALA", "A"%char); ("ARG", "R"%char); ("ASN", "N"%char);
     ("ASP", "D"%char); ("CYS", "C"%char); ("GLN", "Q"%char);
     ("GLU", "E"%char); ("GLY", "G"%char); ("HIS", "H"%char);
     ("ILE", "I"%char); ("LEU", "L"%char); ("LYS", "K"%char);
     ("MET", "M"%char); ("PHE", "F"%char); ("PRO", "P"%char);
     ("SER", "S"%char); ("THR", "T"%char); ("TRP", "W"%char);
     ("TYR", "Y"%char); ("VAL", "V"%char)].

(** A dictionary lookup that fails. *)
Inductive KeyError : Type := key_error (key : string).

(** [[Letter_code[r.resname] for r in residues]]: the first missing name
    raises. *)
Fixpoint letters_of (residues : list Residue) : KeyError + list ascii :=
  match residues with
  | [] => inr []
  | r :: rest =>
      match Letter_code !! resname r with
      | None => inl (key_error (resname r))
      | Some c =>
          match letters_of rest with
          | inl e => inl e
          | inr cs => inr (c :: cs)
          end
      end
  end.

(** The residues kept: with an atom "CA", of the chain, and not named
    " CA" or "PBC". *)
Definition selected (chain : string) (residue : Residue) : bool :=
  has_CA residue
  && String.eqb (parent_id residue) chain
  && negb (existsb (String.eqb (resname residue)) [" CA"; "PBC"]%string).

(** [structure] stands for [structure.get_residues()] of the parsed file. *)
Definition get_protein_sequence_from_pdb (structure : list Residue)
    (chain : string) : KeyError + string :=
  let residues := List.filter (selected chain) structure in
  match letters_of residues with
  | inl e => inl e
  | inr letters => inr (string_of_list_ascii letters)
  end.

(** [itertools.combinations(l, 2)] *)
Fixpoint combinations {A : Type} (l : list A) : list (A * A) :=
  match l with
  | [] => []
  | x :: rest => map (pair x) rest ++ combinations rest
  end.

(** [D[i, j] = d] *)
Definition assign (D : arr2 R) (i j : nat) (d : R) : arr2 R :=
  Arr2 (rows2 D) (cols2 D)
       (fun p q => if (p =? i)%nat && (q =? j)%nat then d else at2 D p q).

(** The body of the loop over the pairs [(i, j)] of indices and [(a, b)] of
    residues: the distance is written at [D[i, j]] and at [D[j, i]]. *)
Definition write_pair (block_min : nat -> nat -> R) (D : arr2 R)
    (step : (nat * nat) * (nat * nat)) : arr2 R :=
  let '((i, j), (a, b)) := step in
  let d := block_min a b in
  assign (assign D i j d) j i d.

(** The branch [method == 'minimum']: [residues] are the distinct residue
    indices of the selection, and [block_min a b] stands for the smallest
    entry of the block of atom distances between the residues [a] and [b]. *)
Definition minimum_distances (residues : list nat)
    (block_min : nat -> nat -> R) : arr2 R :=
  let n := length residues in
  let D := Arr2 n n (fun _ _ => 0 + 1000) in
  fold_left (write_pair block_min)
            (combine (combinations (List.seq 0 n)) (combinations residues))
            D.

(** [ca] and [cb] stand for [squareform(pdist(...))] of the two atom
    selections; an unknown method falls through, and the function returns
    [None]. *)
Definition get_distance_matrix_from_pdb (ca cb : arr2 R)
    (residues : list nat) (block_min : nat -> nat -> R) (method : string)
  : option (arr2 R) :=
  if String.eqb method "CA" then Some ca
  else if String.eqb method "CB" then Some cb
  else if String.eqb method "minimum"
       then Some (minimum_distances residues block_min)
  else None.

End dca_frustratometer_rest.

(** ** frustratometer/dca/pydca.py *)

Module pydca.
Import np dca_frustratometer.

(** [A[:, I]] *)
Definition take_cols (A : arr2 R) (I : list Z) : result (arr2 R) :=
  if forallb (in_bounds (cols2 A)) I
  then ret (Arr2 (rows2 A) (length I) (fun i a =>
              at2 A i (wrap (cols2 A) (nth a I 0%Z))))
  else raise IndexError.

(** [A[:, :, I, :]] *)
Definition take_axis2 (A : arr4 R) (I : list Z) : result (arr4 R) :=
  let '(d0, d1, d2, d3) := shape4 A in
  if forallb (in_bounds d2) I
  then ret (Arr4 (d0, d1, length I, d3) (fun i j a b =>
              at4 A i j (wrap d2 (nth a I 0%Z)) b))
  else raise IndexError.

(** [A[:, :, :, I]] *)
Definition take_axis3 (A : arr4 R) (I : list Z) : result (arr4 R) :=
  let '(d0, d1, d2, d3) := shape4 A in
  if forallb (in_bounds d3) I
  then ret (Arr4 (d0, d1, d2, length I) (fun i j a b =>
              at4 A i j a (wrap d3 (nth b I 0%Z))))
  else raise IndexError.

Definition qq : list Z :=
  [20; 0; 1; 2; 3; 4; 5; 6; 7; 8; 9; 10; 11; 12; 13; 14; 15; 16; 17; 18;
   19]%Z.

(** [potts_model] stands for [plmdca_inst.get_potts_model()] and
    [num_sequences] for [plmdca_inst.num_sequences]; the result is the
    dictionary with the keys 'h', 'J' and 'L'. *)
Definition plmdca (potts_model : PottsModel) (num_sequences : Z)
  : result (PottsModel * Z) :=
  (* Move gaps to the beginning *)
  let* h' := take_cols (h potts_model) qq in
  let* J0 := take_axis2 (J potts_model) qq in
  let* J' := take_axis3 J0 qq in
  ret ({| h := h'; J := J' |}, num_sequences).

(** [A.reshape(d0, d1, d2, d3)] of a matrix, in row-major order. *)
Definition reshape4 (A : arr2 R) (d0 d1 d2 d3 : nat) : result (arr4 R) :=
  if (rows2 A * cols2 A =? d0 * d1 * d2 * d3)%nat
  then ret (Arr4 (d0, d1, d2, d3) (fun i a j b =>
              let flat := (((i * d1 + a) * d2 + j) * d3 + b)%nat in
              at2 A (flat / cols2 A)%nat (flat mod cols2 A)%nat))
  else raise ValueError.

(** [np.concatenate([A, B], axis=1)] for matrices *)
Definition concatenate_cols (A B : arr2 R) : result (arr2 R) :=
  if (rows2 A =? rows2 B)%nat
  then ret (Arr2 (rows2 A) (cols2 A + cols2 B) (fun i j =>
              if (j <? cols2 A)%nat then at2 A i j
              else at2 B i (j - cols2 A)%nat))
  else raise ValueError.

(** [np.concatenate([A, B], axis=1)] for rank 4 *)
Definition concatenate_axis1 (A B : arr4 R) : result (arr4 R) :=
  let '(a0, a1, a2, a3) := shape4 A in
  let '(b0, b1, b2, b3) := shape4 B in
  if (a0 =? b0)%nat && (a2 =? b2)%nat && (a3 =? b3)%nat
  then ret (Arr4 (a0, (a1 + b1)%nat, a2, a3) (fun i a j b =>
              if (a <? a1)%nat then at4 A i a j b
              else at4 B i (a - a1)%nat j b))
  else raise ValueError.

(** [np.concatenate([A, B], axis=3)] for rank 4 *)
Definition concatenate_axis3 (A B : arr4 R) : result (arr4 R) :=
  let '(a0, a1, a2, a3) := shape4 A in
  let '(b0, b1, b2, b3) := shape4 B in
  if (a0 =? b0)%nat && (a1 =? b1)%nat && (a2 =? b2)%nat
  then ret (Arr4 (a0, a1, a2, (a3 + b3)%nat) (fun i a j b =>
              if (b <? a3)%nat then at4 A i a j b
              else at4 B i a j (b - a3)%nat))
  else raise ValueError.

Definition zeros2 (d0 d1 : nat) : arr2 R := Arr2 d0 d1 (fun _ _ => 0).

Definition zeros4 (d0 d1 d2 d3 : nat) : arr4 R :=
  Arr4 (d0, d1, d2, d3) (fun _ _ _ _ => 0).

(** [A.transpose(0, 2, 1, 3)] *)
Definition transpose_0213 (A : arr4 R) : arr4 R :=
  let '(d0, d1, d2, d3) := shape4 A in
  Arr4 (d0, d2, d1, d3) (fun i j a b => at4 A i a j b).

(** [N] and [q] stand for [mfdca_inst.sequences_len] and
    [mfdca_inst.num_site_states], [couplings] for the matrix
    [compute_couplings] returns and [fields] for the array of the values of
    the dictionary [compute_fields] returns, a matrix when [N] is not 0.
    With [q = 0] the shape
    [(N, -1, N, -1)] leaves two dimensions open, which [reshape] refuses.
    The result is the dictionary with the keys 'h', 'J', 'N' and 'q'. *)
Definition mfdca (N q : nat) (couplings fields : arr2 R)
  : result (PottsModel * nat * nat) :=
  if (q =? 0)%nat then raise ValueError
  else
    let* couplings := reshape4 couplings N (q - 1) N (q - 1) in
    let* fields := concatenate_cols (zeros2 N 1) fields in
    let* couplings :=
      concatenate_axis1 (zeros4 N 1 N (q - 1)) couplings in
    let* couplings := concatenate_axis3 (zeros4 N q N 1) couplings in
    let couplings := transpose_0213 couplings in
    ret ({| h := fields; J := couplings |}, N, q).

End pydca.

(** * Vocabulary of the statements and test objects *)

Import np dca_frustratometer.

(** A Potts model over [L] positions: fields L x 21, couplings
    L x L x 21 x 21. *)
Definition well_formed (L : nat) (m : PottsModel) : Prop :=
  rows2 (h m) = L /\ cols2 (h m) = 21%nat
  /\ shape4 (J m) = (L, L, 21%nat, 21%nat).

(** The distance matrix is read only under a distance cutoff, and it then
    has to be L x L. *)
Definition distance_ok (L : nat) (D : arr2 R) (dc : option R) : Prop :=
  dc = None \/ (rows2 D = L /\ cols2 D = L).

(** The symbol index of position [i]: the letter's position in the alphabet,
    resolved the way numpy resolves an index on an axis of size 21. *)
Definition sym (seq : string) (i : nat) : nat :=
  wrap 21 (iat (seq_index_of seq) i).

(** Whether the pair [(i, j)] passes the filters that are set. *)
Definition contact (D : arr2 R) (dc : option R) (sc : option Z)
    (i j : nat) : bool :=
  match sc with
  | Some c => (c <? Z.abs (Z.of_nat i - Z.of_nat j))%Z
  | None => true
  end
  && match dc with
     | Some c => if Rle_dec (at2 D i j) c then true else false
     | None => true
     end.

(** The decoy for mutating position [p] to symbol [a], as symbol indices. *)
Definition mutant (seq : string) (p a : nat) (k : nat) : nat :=
  if (k =? p)%nat then a else sym seq k.

Abbreviation decoys_of seq :=
  (create_decoys (seq_index_of seq) (String.length seq)).

(** A model over [L] positions with every field and coupling zero. *)
Definition zero_model (L : nat) : PottsModel :=
  {| h := Arr2 L 21 (fun _ _ => 0);
     J := Arr4 (L, L, 21%nat, 21%nat) (fun _ _ _ _ => 0) |}.

(** The sequence with every letter that is not in [AA] replaced by "Y". *)
Fixpoint read_as_Y (seq : string) : string :=
  match seq with
  | EmptyString => EmptyString
  | String c s =>
      String (if (find AA c =? -1)%Z then "Y"%char else c) (read_as_Y s)
  end.

(** The weighted mean and the weighted standard deviation of the 21 values
    [x 0 .. x 20] under the weights [w 0 .. w 20]. *)
Definition mean_w (w x : nat -> R) : R :=
  big_sum 21 (fun a => w a * x a) / big_sum 21 w.

Definition std_w (w x : nat -> R) : R :=
  R_sqrt.sqrt (big_sum 21 (fun a => w a * (x a - mean_w w x) ^ 2)
               / big_sum 21 w).

Definition uniform : arr1 R := Arr1 21 (fun _ => 1).

(** A table whose single row holds 21 equal decoy energies. *)
Definition flat_row : arr2 R := Arr2 1 21 (fun _ _ => 0).

(** Two positions, the first a gap: field 1 for the gap at position 0 and
    field 2 for "A" at position 1; no couplings, an empty mask. *)
Definition gap_model : PottsModel :=
  {| h := Arr2 2 21 (fun i a =>
            if (i =? 0)%nat && (a =? 0)%nat then 1
            else if (i =? 1)%nat && (a =? 1)%nat then 2 else 0);
     J := Arr4 (2%nat, 2%nat, 21%nat, 21%nat) (fun _ _ _ _ => 0) |}.

Definition gap_object : Frustratometer.t :=
  Frustratometer.init "-A" gap_model (Arr2 2 2 (fun _ _ => 0)).

(** One position whose field for symbol [a] is [a]; no couplings. *)
Definition ladder_model : PottsModel :=
  {| h := Arr2 1 21 (fun _ a => INR a);
     J := Arr4 (1%nat, 1%nat, 21%nat, 21%nat) (fun _ _ _ _ => 0) |}.

Definition ladder_object : Frustratometer.t :=
  Frustratometer.init "A" ladder_model (Arr2 1 1 (fun _ _ => 0)).

(** Two positions, field [a] for symbol [a] and every coupling 1. *)
Definition toy_model : PottsModel :=
  {| h := Arr2 2 21 (fun _ a => INR a);
     J := Arr4 (2%nat, 2%nat, 21%nat, 21%nat) (fun _ _ _ _ => 1) |}.

Definition toy_distances : arr2 R :=
  Arr2 2 2 (fun i j => if (i =? j)%nat then 0 else 5).

(** One coupling, from position 0 to position 1, and a distance table that
    is not symmetric: under the cutoff 5 the pair (0, 1) is a contact and the
    pair (1, 0) is not. *)
Definition skew_model : PottsModel :=
  {| h := Arr2 2 21 (fun _ _ => 0);
     J := Arr4 (2%nat, 2%nat, 21%nat, 21%nat)
               (fun i j _ _ => if (i =? 0)%nat && (j =? 1)%nat then 1 else 0) |}.

Definition skew_distances : arr2 R :=
  Arr2 2 2 (fun i j => if (i =? 1)%nat && (j =? 0)%nat then 9 else 0).

(** A pair-kind computation that is never reached. *)
Definition no_pair_kind (_ : string) (_ : PottsModel) (_ : arr2 R)
  : result (arr4 R) := raise (Exception "pair kinds are not modelled").

(** [k * E + c], entry by entry, and [k * w]. *)
Definition affine2 (k c : R) (E : arr2 R) : arr2 R :=
  Arr2 (rows2 E) (cols2 E) (fun i j => k * at2 E i j + c).

Definition scale1 (k : R) (w : arr1 R) : arr1 R :=
  Arr1 (len1 w) (fun a => k * at1 w a).

(** The length of the weights a call works with. *)
Definition weights_length (aa_freq : option (arr1 R)) : nat :=
  match aa_freq with
  | None => 21%nat
  | Some w => len1 w
  end.

(** A table with one row whose first decoy energy stands out. *)
Definition spike_row : arr2 R :=
  Arr2 1 21 (fun _ a => if (a =? 0)%nat then 21 else 0).

(** Whether a letter is one of the 21 of the alphabet, and how many letters
    of a sequence are read as the symbol [i]. *)
Definition in_alphabet (c : ascii) : bool := negb (find AA c =? -1)%Z.

Definition occurrences (seq : string) (i : nat) : nat :=
  length (List.filter (fun c => (find AA c =? Z.of_nat i)%Z)
                 (list_ascii_of_string seq)).

Definition known_letters (seq : string) : nat :=
  length (List.filter in_alphabet (list_ascii_of_string seq)).

(** [AA[a]], the letter of the symbol [a]. *)
Definition letter (a : nat) : ascii :=
  match String.get a AA with
  | Some c => c
  | None => "Y"%char
  end.

(** The sequence with the letter at position [p] replaced by [c]. *)
Fixpoint mutate (seq : string) (p : nat) (c : ascii) : string :=
  match seq with
  | EmptyString => EmptyString
  | String x s =>
      match p with
      | O => String c s
      | S p' => String x (mutate s p' c)
      end
  end.

(** A distance matrix that broadcasts to L x L. *)
Definition broadcastable (L : nat) (D : arr2 R) : Prop :=
  (rows2 D = L \/ rows2 D = 1%nat) /\ (cols2 D = L \/ cols2 D = 1%nat).

(** The four kinds of decoys, and the rank a stored tensor has to have
    under its kind. *)
Definition is_kind (kind : string) : bool :=
  existsb (String.eqb kind)
          ["singleresidue"; "mutational"; "configurational"; "contact"]%string.

Definition rank_fits (kind : string) (f : frustration.ndarray) : Prop :=
  match f with
  | frustration.Rank2 _ => kind = "singleresidue"%string
  | frustration.Rank4 _ => kind <> "singleresidue"%string
  end.

(** A cache that holds tensors under the four kinds only, each of the rank
    of its kind. *)
Definition cache_ok (self : Frustratometer.t) : Prop :=
  forall kind f,
    Frustratometer._decoy_fluctuation self !! kind = Some f ->
    is_kind kind = true /\ rank_fits kind f.

(** The letters of the 20 amino acids have the symbols 1 to 20. *)
Definition is_amino_acid (c : ascii) : Prop := (1 <= find AA c <= 20)%Z.

(** The state of pydca's models that the symbol [a] of the alphabet reads
    after [plmdca]: the gap, symbol 0, is pydca's last state, and the
    amino acids move up by one. *)
Definition state_of (a : nat) : nat :=
  match a with
  | O => 20%nat
  | S a' => a'
  end.

(** The sequence of [n] gaps. *)
Fixpoint gaps (n : nat) : string :=
  match n with
  | O => EmptyString
  | S n' => String "-" (gaps n')
  end.

(** What a method returns to its caller, without the object it leaves. *)
Definition returned {A : Type} (r : result (Frustratometer.t * A))
  : result A :=
  match r with
  | inl e => inl e
  | inr (_, a) => inr a
  end.

(** * Properties *)

(** ** Finite sums *)

Section big_sum_facts.

Lemma big_sum_ext (n : nat) (f g : nat -> R) :
  (forall i, (i < n)%nat -> f i = g i) -> big_sum n f = big_sum n g.
Proof.
  induction n as [|n IH]; intros Hfg; simpl; [reflexivity|].
  rewrite IH, Hfg by (intros; try apply Hfg; lia). reflexivity.
Qed.

Lemma big_sum_zero (n : nat) : big_sum n (fun _ => 0) = 0.
Proof. induction n as [|n IH]; simpl; [|rewrite IH]; lra. Qed.

Lemma big_sum_plus (n : nat) (f g : nat -> R) :
  big_sum n (fun i => f i + g i) = big_sum n f + big_sum n g.
Proof. induction n as [|n IH]; simpl; [|rewrite IH]; lra. Qed.

Lemma big_sum_scal (n : nat) (c : R) (f : nat -> R) :
  big_sum n (fun i => f i * c) = big_sum n f * c.
Proof. induction n as [|n IH]; simpl; [|rewrite IH]; lra. Qed.

Lemma big_sum_swap (n m : nat) (f : nat -> nat -> R) :
  big_sum n (fun i => big_sum m (fun j => f i j))
  = big_sum m (fun j => big_sum n (fun i => f i j)).
Proof.
  induction n as [|n IH]; simpl.
  - symmetry. apply big_sum_zero.
  - rewrite IH, <- big_sum_plus. reflexivity.
Qed.

Lemma big_sum_nonneg (n : nat) (f : nat -> R) :
  (forall i, (i < n)%nat -> 0 <= f i) -> 0 <= big_sum n f.
Proof.
  induction n as [|n IH]; intros Hf; simpl; [lra|].
  assert (0 <= big_sum n f) by (apply IH; intros; apply Hf; lia).
  assert (0 <= f n) by (apply Hf; lia). lra.
Qed.

End big_sum_facts.

(** ** Index checks *)

Lemma all_lt_spec (n : nat) (P : nat -> bool) :
  all_lt n P = true <-> (forall i, (i < n)%nat -> P i = true).
Proof.
  induction n as [|n IH]; simpl.
  - split; [intros _ i Hi; lia | reflexivity].
  - rewrite andb_true_iff, IH. split.
    + intros [Hn Hl] i Hi. destruct (Nat.eq_dec i n) as [->|]; [assumption|].
      apply Hn. lia.
    + intros Hall. split; [intros i Hi|]; apply Hall; lia.
Qed.

Lemma all_lt_false (n : nat) (P : nat -> bool) (i : nat) :
  (i < n)%nat -> P i = false -> all_lt n P = false.
Proof.
  intros Hi HP. destruct (all_lt n P) eqn:E; [|reflexivity].
  rewrite all_lt_spec in E. rewrite E in HP by assumption. discriminate.
Qed.

Lemma in_bounds_of_nat (d i : nat) :
  (i < d)%nat -> in_bounds d (Z.of_nat i) = true.
Proof. intros Hi. unfold in_bounds. apply andb_true_iff. lia. Qed.

Lemma in_bounds_of_nat_ge (d i : nat) :
  (d <= i)%nat -> in_bounds d (Z.of_nat i) = false.
Proof. intros Hi. unfold in_bounds. apply andb_false_iff. lia. Qed.

Lemma wrap_of_nat (d i : nat) : wrap d (Z.of_nat i) = i.
Proof.
  unfold wrap. destruct (Z.ltb_spec (Z.of_nat i) 0); lia.
Qed.

Lemma bidx_lt (d i : nat) : (i < d)%nat -> bidx d i = i.
Proof.
  intros Hi. unfold bidx. destruct (Nat.eqb_spec d 1); lia.
Qed.

Lemma bdim_same (d : nat) : bdim d d = Some d.
Proof. unfold bdim. rewrite Nat.eqb_refl. reflexivity. Qed.

(** ** The alphabet *)

Lemma find_AA_range (c : ascii) : (-1 <= find AA c <= 20)%Z.
Proof.
  unfold find, AA. simpl.
  repeat (destruct (Ascii.eqb c _); [lia|]). lia.
Qed.

Lemma find_AA_in_bounds (c : ascii) : in_bounds 21 (find AA c) = true.
Proof.
  pose proof (find_AA_range c) as Hr. unfold in_bounds.
  change (Z.of_nat 21) with 21%Z.
  apply andb_true_iff. split; [apply Z.leb_le|apply Z.ltb_lt]; lia.
Qed.

Lemma seq_index_len (seq : string) :
  ilen (seq_index_of seq) = String.length seq.
Proof.
  unfold seq_index_of, ilen, array. simpl. rewrite length_map.
  induction seq as [|c s IH]; simpl; [reflexivity|]. now f_equal.
Qed.

Lemma seq_index_dtype (seq : string) :
  seq <> EmptyString -> dtype1 (seq_index_of seq) = int64.
Proof. destruct seq; [congruence|reflexivity]. Qed.

Lemma seq_index_in_bounds (seq : string) (i : nat) :
  (i < String.length seq)%nat -> in_bounds 21 (iat (seq_index_of seq) i) = true.
Proof.
  intros Hi. unfold iat, seq_index_of, array. simpl.
  assert (Hlen : length (list_ascii_of_string seq) = String.length seq).
  { clear. induction seq; simpl; [reflexivity|now f_equal]. }
  rewrite <- Hlen in Hi.
  rewrite (nth_indep _ 0%Z (find AA "a"%char)) by (rewrite length_map; exact Hi).
  rewrite (map_nth (find AA)). apply find_AA_in_bounds.
Qed.

(** ** The interaction mask *)

Lemma gt_IZR_ltb (c k : Z) :
  (if Rlt_dec (IZR c) (IZR k) then true else false) = (c <? k)%Z.
Proof.
  destruct (Rlt_dec (IZR c) (IZR k)) as [Hlt|Hge]; symmetry.
  - apply Z.ltb_lt, lt_IZR, Hlt.
  - apply Z.ltb_ge. apply Z.le_ngt. intros Hlt. apply Hge, IZR_lt, Hlt.
Qed.

Lemma of_bool_andb (a b : bool) : of_bool (a && b) = of_bool a * of_bool b.
Proof. destruct a, b; simpl; lra. Qed.

Lemma interaction_mask_spec (L : nat) (D : arr2 R) (dc : option R)
    (sc : option Z) :
  distance_ok L D dc ->
  exists mask,
    interaction_mask L D dc sc = inr mask
    /\ rows2 mask = L /\ cols2 mask = L
    /\ forall i j, (i < L)%nat -> (j < L)%nat ->
         at2 mask i j = of_bool (contact D dc sc i j).
Proof.
  intros HD. unfold interaction_mask, contact.
  destruct sc as [c|], dc as [d|]; simpl;
    unfold imul2; simpl; rewrite ?Nat.eqb_refl; simpl.
  - destruct HD as [HD|[Hr Hc]]; [discriminate|].
    rewrite Hr, Hc, !Nat.eqb_refl. simpl. eexists. split; [reflexivity|].
    repeat split. intros i j Hi Hj. simpl.
    rewrite !bidx_lt by assumption. rewrite gt_IZR_ltb, of_bool_andb. lra.
  - eexists. split; [reflexivity|]. repeat split. intros i j Hi Hj. simpl.
    rewrite !bidx_lt by assumption. rewrite gt_IZR_ltb, andb_true_r. lra.
  - destruct HD as [HD|[Hr Hc]]; [discriminate|].
    rewrite Hr, Hc, !Nat.eqb_refl. simpl. eexists. split; [reflexivity|].
    repeat split. intros i j Hi Hj. simpl.
    rewrite !bidx_lt by assumption. lra.
  - eexists. split; [reflexivity|]. repeat split.
Qed.

Lemma interaction_mask_shape (L : nat) (D : arr2 R) (dc : option R)
    (sc : option Z) (mask : arr2 R) :
  interaction_mask L D dc sc = inr mask ->
  rows2 mask = L /\ cols2 mask = L.
Proof.
  unfold interaction_mask.
  destruct sc as [c|], dc as [d|]; simpl; unfold imul2; simpl;
    rewrite ?Nat.eqb_refl; simpl;
    repeat match goal with
      | |- context [if ?b then _ else _] => destruct b; simpl
      end;
    intros Heq; inversion Heq; subst; simpl; auto.
Qed.

(** Every 0/1 matrix is the mask of some distance matrix. *)
Lemma every_mask_is_built (L : nat) (want : nat -> nat -> bool) :
  exists D mask,
    interaction_mask L D (Some 0) None = inr mask
    /\ rows2 mask = L /\ cols2 mask = L
    /\ forall i j, (i < L)%nat -> (j < L)%nat ->
         at2 mask i j = of_bool (want i j).
Proof.
  set (D := Arr2 L L (fun i j => if want i j then 0 else 1)).
  destruct (interaction_mask_spec L D (Some 0) None) as (mask & Hm & Hr & Hc & He).
  { right. split; reflexivity. }
  exists D, mask. repeat split; try assumption.
  intros i j Hi Hj. rewrite He by assumption. unfold contact, D. simpl.
  destruct (want i j); destruct (Rle_dec _ 0); simpl; try reflexivity; lra.
Qed.

(** ** The native energy *)

Lemma range_seq_index_valid (seq : string) (d0 d1 : nat) :
  (String.length seq <= d0)%nat -> d1 = 21%nat ->
  all_lt (ilen (range (String.length seq)))
         (fun k => in_bounds d0 (iat (range (String.length seq)) k)
                   && in_bounds d1 (iat (seq_index_of seq) k)) = true.
Proof.
  intros Hd0 ->. apply all_lt_spec. intros i Hi. unfold ilen in Hi. simpl in Hi.
  apply andb_true_iff. split.
  - apply in_bounds_of_nat. lia.
  - apply seq_index_in_bounds, Hi.
Qed.

(** The three index operations of [compute_native_energy] on valid
    indices. *)
Lemma take2_valid (A : arr2 R) (I0 I1 : iarr1) :
  dtype1 I0 = int64 -> dtype1 I1 = int64 -> ilen I0 = ilen I1 ->
  all_lt (ilen I0) (fun k => in_bounds (rows2 A) (iat I0 k)
                             && in_bounds (cols2 A) (iat I1 k)) = true ->
  take2 A I0 I1
  = inr (Arr1 (ilen I0) (fun k =>
           at2 A (wrap (rows2 A) (iat I0 k)) (wrap (cols2 A) (iat I1 k)))).
Proof.
  intros H0 H1 Hl Hall. unfold take2.
  rewrite H0, H1, <- Hl, Nat.eqb_refl, Hall. reflexivity.
Qed.

Lemma take4_02_valid (A : arr4 R) (I0 I2 : iarr1) (d0 d1 d2 d3 : nat) :
  shape4 A = (d0, d1, d2, d3) ->
  dtype1 I0 = int64 -> dtype1 I2 = int64 -> ilen I0 = ilen I2 ->
  all_lt (ilen I0) (fun k => in_bounds d0 (iat I0 k)
                             && in_bounds d2 (iat I2 k)) = true ->
  take4_02 A I0 I2
  = inr (Arr3 (ilen I0, d1, d3) (fun k m b =>
           at4 A (wrap d0 (iat I0 k)) m (wrap d2 (iat I2 k)) b)).
Proof.
  intros Hs H0 H2 Hl Hall. unfold take4_02.
  rewrite Hs, H0, H2, <- Hl, Nat.eqb_refl, Hall. reflexivity.
Qed.

Lemma take3_12_valid (X : arr3 R) (I1 I2 : iarr1) (d0 d1 d2 : nat) :
  shape3 X = (d0, d1, d2) ->
  dtype1 I1 = int64 -> dtype1 I2 = int64 -> ilen I1 = ilen I2 ->
  all_lt (ilen I1) (fun k => in_bounds d1 (iat I1 k)
                             && in_bounds d2 (iat I2 k)) = true ->
  take3_12 X I1 I2
  = inr (Arr2 d0 (ilen I1) (fun k m =>
           at3 X k (wrap d1 (iat I1 m)) (wrap d2 (iat I2 m)))).
Proof.
  intros Hs H1 H2 Hl Hall. unfold take3_12.
  rewrite Hs, H1, H2, <- Hl, Nat.eqb_refl, Hall. reflexivity.
Qed.

(** With a well-formed model over at least as many positions as the
    sequence has, the three index operations succeed, and what remains is the
    mask and the sums. *)
Lemma native_energy_after_indexing (seq : string) (m : PottsModel) (L : nat)
    (D : arr2 R) (dc : option R) (sc : option Z) :
  seq <> EmptyString ->
  well_formed L m ->
  (String.length seq <= L)%nat ->
  let n := String.length seq in
  compute_native_energy seq m D dc sc
  = let* mask := interaction_mask n D dc sc in
    let* j_prime :=
      mul2 (Arr2 n n (fun i j =>
              - at4 (J m) (wrap L (Z.of_nat i)) (wrap L (Z.of_nat j))
                    (sym seq i) (sym seq j)))
           mask in
    ret (sum1 (Arr1 n (fun i =>
                 - at2 (h m) (wrap L (Z.of_nat i)) (sym seq i)))
         + sum2 j_prime / 2).
Proof.
  intros Hne (Hr & Hc & HJ) Hle n.
  pose proof (seq_index_dtype seq Hne) as Hdt.
  pose proof (seq_index_len seq) as Hlen.
  unfold compute_native_energy. rewrite Hlen. fold n.
  assert (Hrl : ilen (range n) = ilen (seq_index_of seq)) by (now rewrite Hlen).
  rewrite (take2_valid (h m) (range n) (seq_index_of seq) eq_refl Hdt Hrl)
    by (apply range_seq_index_valid; [rewrite Hr; exact Hle | exact Hc]).
  rewrite (take4_02_valid (J m) (range n) (seq_index_of seq) _ _ _ _
             HJ eq_refl Hdt Hrl)
    by (apply range_seq_index_valid; [exact Hle | reflexivity]).
  cbn [bind ret].
  erewrite take3_12_valid;
    [| reflexivity | reflexivity | exact Hdt | exact Hrl
     | apply range_seq_index_valid; [exact Hle | reflexivity]].
  cbn [bind ret]. rewrite Hr, Hc. reflexivity.
Qed.

Lemma native_energy_value (seq : string) (m : PottsModel) (L : nat)
    (D : arr2 R) (dc : option R) (sc : option Z) (mask : arr2 R) :
  seq <> EmptyString ->
  well_formed L m ->
  (String.length seq <= L)%nat ->
  interaction_mask (String.length seq) D dc sc = inr mask ->
  compute_native_energy seq m D dc sc
  = inr (big_sum (String.length seq) (fun i => - at2 (h m) i (sym seq i))
         + big_sum (String.length seq) (fun i =>
             big_sum (String.length seq) (fun j =>
               - at4 (J m) i j (sym seq i) (sym seq j) * at2 mask i j)) / 2).
Proof.
  intros Hne Hwf Hle Hmask.
  pose proof (interaction_mask_shape _ _ _ _ _ Hmask) as [Hmr Hmc].
  rewrite (native_energy_after_indexing seq m L D dc sc Hne Hwf Hle).
  cbv zeta. rewrite Hmask. cbn [bind ret].
  unfold mul2. cbn [rows2 cols2 at2]. rewrite Hmr, Hmc, !bdim_same.
  cbn [bind ret]. f_equal. unfold sum1, sum2. cbn [len1 at1 rows2 cols2 at2].
  f_equal.
  - apply big_sum_ext. intros i Hi. now rewrite wrap_of_nat.
  - f_equal. apply big_sum_ext. intros i Hi. apply big_sum_ext. intros j Hj.
    rewrite !bidx_lt by assumption. now rewrite !wrap_of_nat.
Qed.

(** C1: for a non-empty sequence [s] of length L, a well-formed Potts model
    and the L x L mask built from the distance matrix and the cutoffs,
    [compute_native_energy] returns the field sum plus half the masked
    coupling sum, on the negated model values:
    E = sum_i (-h[i, s[i]]) + (1/2) sum_{i,j} (-J[i,j,s[i],s[j]]) * mask[i,j]. *)
Theorem native_energy_is_negated_potts_sum (seq : string) (m : PottsModel)
    (D : arr2 R) (dc : option R) (sc : option Z) :
  seq <> EmptyString ->
  well_formed (String.length seq) m ->
  distance_ok (String.length seq) D dc ->
  let L := String.length seq in
  exists mask,
    interaction_mask L D dc sc = inr mask
    /\ rows2 mask = L /\ cols2 mask = L
    /\ compute_native_energy seq m D dc sc
       = inr (big_sum L (fun i => - at2 (h m) i (sym seq i))
              + 1 / 2 * big_sum L (fun i => big_sum L (fun j =>
                          - at4 (J m) i j (sym seq i) (sym seq j)
                          * at2 mask i j))).
Proof.
  intros Hne Hwf HD L.
  destruct (interaction_mask_spec L D dc sc HD) as (mask & Hm & Hr & Hc & _).
  exists mask. repeat split; try assumption.
  rewrite (native_energy_value seq m L D dc sc mask Hne Hwf (Nat.le_refl _) Hm).
  f_equal. fold L. lra.
Qed.

(** ** The singleresidue decoys *)

Lemma all3_spec (d0 d1 d2 : nat) (P : nat -> nat -> nat -> bool) :
  all3 (d0, d1, d2) P = true
  <-> (forall p a k, (p < d0)%nat -> (a < d1)%nat -> (k < d2)%nat ->
         P p a k = true).
Proof.
  unfold all3. rewrite all_lt_spec. split.
  - intros Hall p a k Hp Ha Hk. specialize (Hall p Hp).
    rewrite all_lt_spec in Hall. specialize (Hall a Ha).
    rewrite all_lt_spec in Hall. apply Hall, Hk.
  - intros Hall p Hp. apply all_lt_spec. intros a Ha.
    apply all_lt_spec. intros k Hk. apply Hall; assumption.
Qed.

Lemma shape3_eqb_refl (s : nat * nat * nat) : shape3_eqb s s = true.
Proof. destruct s as [[a b] c]. simpl. now rewrite !Nat.eqb_refl. Qed.

(** The decoy table after the loop over the [c] first symbols. *)
Lemma set_mutation_fold (n c : nat) (d : iarr3) :
  dtype3 (fold_left (set_mutation n) (List.seq 0 c) d) = dtype3 d
  /\ shape3 (idx3 (fold_left (set_mutation n) (List.seq 0 c) d))
     = shape3 (idx3 d)
  /\ forall p a k,
       at3 (idx3 (fold_left (set_mutation n) (List.seq 0 c) d)) p a k
       = if (p <? n)%nat && (a <? c)%nat && (k =? p)%nat
         then Z.of_nat a else at3 (idx3 d) p a k.
Proof.
  induction c as [|c IH].
  - simpl. repeat split. intros p a k. now rewrite andb_false_r.
  - rewrite seq_S, fold_left_app. destruct IH as (Hd & Hs & Ha).
    cbn [fold_left set_mutation dtype3 idx3 shape3 at3 Nat.add].
    repeat split; try assumption. intros p a k. rewrite Ha.
    destruct (Nat.ltb_spec p n), (Nat.eqb_spec a c), (Nat.eqb_spec k p);
      simpl; subst;
      repeat match goal with
        | |- context [(?x <? ?y)%nat] => destruct (Nat.ltb_spec x y)
        end; simpl; try reflexivity; try lia.
Qed.

Lemma decoys_of_spec (seq : string) :
  let L := String.length seq in
  dtype3 (decoys_of seq) = dtype1 (seq_index_of seq)
  /\ shape3 (idx3 (decoys_of seq)) = (L, 21%nat, L)
  /\ forall p a k, (p < L)%nat -> (a < 21)%nat -> (k < L)%nat ->
       in_bounds 21 (at3 (idx3 (decoys_of seq)) p a k) = true
       /\ wrap 21 (at3 (idx3 (decoys_of seq)) p a k) = mutant seq p a k.
Proof.
  intros L. unfold create_decoys. fold L.
  destruct (set_mutation_fold L 21 (repeat_seq_index (seq_index_of seq) L))
    as (Hd & Hs & Ha).
  pose proof (seq_index_len seq) as Hlen. fold L in Hlen.
  split; [rewrite Hd; reflexivity|].
  split.
  { rewrite Hs. cbn [repeat_seq_index idx3 shape3]. now rewrite Hlen. }
  intros p a k Hp Ha' Hk. rewrite Ha.
  cbn [repeat_seq_index idx3 at3]. unfold mutant.
  destruct (Nat.ltb_spec p L); [|lia].
  destruct (Nat.ltb_spec a 21); [|lia]. cbn [andb].
  destruct (Nat.eqb_spec k p).
  - split; [apply in_bounds_of_nat; assumption | apply wrap_of_nat].
  - split; [apply seq_index_in_bounds; assumption | reflexivity].
Qed.

Lemma take2_3_valid (A : arr2 R) (I0 I1 : iarr3) (s : nat * nat * nat) :
  dtype3 I0 = int64 -> dtype3 I1 = int64 ->
  shape3 (idx3 I0) = s -> shape3 (idx3 I1) = s ->
  all3 s (fun p a k => in_bounds (rows2 A) (at3 (idx3 I0) p a k)
                       && in_bounds (cols2 A) (at3 (idx3 I1) p a k)) = true ->
  take2_3 A I0 I1
  = inr (Arr3 s (fun p a k =>
           at2 A (wrap (rows2 A) (at3 (idx3 I0) p a k))
                 (wrap (cols2 A) (at3 (idx3 I1) p a k)))).
Proof.
  intros H0 H1 S0 S1 Hall. unfold take2_3.
  rewrite H0, H1, S0, S1, shape3_eqb_refl, Hall. reflexivity.
Qed.

Lemma take4_02_3_valid (A : arr4 R) (I0 I2 : iarr3)
    (d0 d1 d2 d3 n0 n1 n2 : nat) :
  shape4 A = (d0, d1, d2, d3) ->
  dtype3 I0 = int64 -> dtype3 I2 = int64 ->
  shape3 (idx3 I0) = (n0, n1, n2) -> shape3 (idx3 I2) = (n0, n1, n2) ->
  all3 (n0, n1, n2)
       (fun p a k => in_bounds d0 (at3 (idx3 I0) p a k)
                     && in_bounds d2 (at3 (idx3 I2) p a k)) = true ->
  take4_02_3 A I0 I2
  = inr (Arr5 (n0, n1, n2, d1, d3) (fun p a k m b =>
           at4 A (wrap d0 (at3 (idx3 I0) p a k)) m
                 (wrap d2 (at3 (idx3 I2) p a k)) b)).
Proof.
  intros Hs H0 H2 S0 S2 Hall. unfold take4_02_3.
  rewrite Hs, H0, H2, S0, S2, shape3_eqb_refl, Hall. reflexivity.
Qed.

Lemma take5_0134_valid (X : arr5 R) (I0 I1 I3 I4 : iarr3)
    (d0 d1 d2 d3 d4 n0 n1 n2 : nat) :
  shape5 X = (d0, d1, d2, d3, d4) ->
  dtype3 I0 = int64 -> dtype3 I1 = int64 ->
  dtype3 I3 = int64 -> dtype3 I4 = int64 ->
  shape3 (idx3 I0) = (n0, n1, n2) -> shape3 (idx3 I1) = (n0, n1, n2) ->
  shape3 (idx3 I3) = (n0, n1, n2) -> shape3 (idx3 I4) = (n0, n1, n2) ->
  all3 (n0, n1, n2)
       (fun p a k => in_bounds d0 (at3 (idx3 I0) p a k)
                     && in_bounds d1 (at3 (idx3 I1) p a k)
                     && in_bounds d3 (at3 (idx3 I3) p a k)
                     && in_bounds d4 (at3 (idx3 I4) p a k)) = true ->
  take5_0134 X I0 I1 I3 I4
  = inr (Arr4 (n0, n1, n2, d2) (fun p a k q =>
           at5 X (wrap d0 (at3 (idx3 I0) p a k))
                 (wrap d1 (at3 (idx3 I1) p a k)) q
                 (wrap d3 (at3 (idx3 I3) p a k))
                 (wrap d4 (at3 (idx3 I4) p a k)))).
Proof.
  intros Hs H0 H1 H3 H4 S0 S1 S3 S4 Hall. unfold take5_0134.
  rewrite Hs, H0, H1, H3, H4, S0, S1, S3, S4, shape3_eqb_refl, Hall.
  reflexivity.
Qed.

(** The value of every entry of the decoy energy table: the energy of the
    mutant sequence, with the couplings read as [J[q, k]] against
    [mask[k, q]]. *)
Lemma decoy_energy_value (seq : string) (m : PottsModel) (D : arr2 R)
    (dc : option R) (sc : option Z) (mask : arr2 R) :
  seq <> EmptyString ->
  well_formed (String.length seq) m ->
  interaction_mask (String.length seq) D dc sc = inr mask ->
  let L := String.length seq in
  exists E,
    compute_singleresidue_decoy_energy seq m D dc sc = inr E
    /\ rows2 E = L /\ cols2 E = 21%nat
    /\ forall p a, (p < L)%nat -> (a < 21)%nat ->
         at2 E p a
         = big_sum L (fun k => - at2 (h m) k (mutant seq p a k))
           + big_sum L (fun k => big_sum L (fun q =>
               - at4 (J m) q k (mutant seq p a q) (mutant seq p a k)
               * at2 mask k q)) / 2.
Proof.
  intros Hne (Hr & Hc & HJ) Hmask L. subst L.
  pose proof (interaction_mask_shape _ _ _ _ _ Hmask) as [Hmr Hmc].
  pose proof (seq_index_dtype seq Hne) as Hdt.
  pose proof (seq_index_len seq) as Hlen.
  pose proof (decoys_of_spec seq) as Hdecoys. cbv zeta in Hdecoys.
  rewrite Hdt in Hdecoys.
  unfold compute_singleresidue_decoy_energy.
  rewrite Hlen. cbn [meshgrid].
  revert Hdecoys.
  generalize (create_decoys (seq_index_of seq) (String.length seq)).
  intros decoys (Dd & Ds & Da).
  set (L := String.length seq) in *.
  set (mut_pos := IArr3 int64 (Arr3 (L, 21%nat, L) (fun p _ _ => Z.of_nat p))).
  set (mut_aa := IArr3 int64 (Arr3 (L, 21%nat, L) (fun _ a _ => Z.of_nat a))).
  set (seq_pos := IArr3 int64 (Arr3 (L, 21%nat, L) (fun _ _ k => Z.of_nat k))).
  rewrite (take2_3_valid (h m) seq_pos decoys (L, 21%nat, L)
             eq_refl Dd eq_refl Ds).
  2:{ apply all3_spec. intros p a k Hp Ha Hk. apply andb_true_iff. split.
      - rewrite Hr. apply in_bounds_of_nat, Hk.
      - rewrite Hc. apply Da; assumption. }
  rewrite (take4_02_3_valid (J m) seq_pos decoys _ _ _ _ L 21 L
             HJ eq_refl Dd eq_refl Ds).
  2:{ apply all3_spec. intros p a k Hp Ha Hk. apply andb_true_iff. split.
      - apply in_bounds_of_nat, Hk.
      - apply Da; assumption. }
  cbn [bind ret].
  erewrite (take5_0134_valid _ mut_pos mut_aa seq_pos decoys);
    [| reflexivity | reflexivity | reflexivity | reflexivity | exact Dd
     | reflexivity | reflexivity | reflexivity | exact Ds | ].
  2:{ apply all3_spec. intros p a k Hp Ha Hk.
      rewrite !andb_true_iff. repeat split.
      - apply in_bounds_of_nat, Hp.
      - apply in_bounds_of_nat, Ha.
      - apply in_bounds_of_nat, Hk.
      - apply Da; assumption. }
  cbn [bind ret]. rewrite Hmask. cbn [bind ret].
  unfold mul4_2. cbn [neg4 shape4]. rewrite Hmr, Hmc, !bdim_same.
  cbn [bind ret]. unfold add2.
  cbn [sum_last3 sum_last4 neg3 shape3 shape4 div_scalar2 rows2 cols2].
  rewrite !bdim_same. cbn [bind ret].
  eexists. split; [reflexivity|]. split; [reflexivity|]. split; [reflexivity|].
  intros p a Hp Ha. cbn [div_scalar2 at2].
  rewrite !bidx_lt by assumption. f_equal.
  - apply big_sum_ext. intros k Hk.
    unfold seq_pos. cbn [neg3 idx3 at3]. rewrite Hr, Hc, wrap_of_nat.
    destruct (Da p a k Hp Ha Hk) as [_ ->]. reflexivity.
  - f_equal. apply big_sum_ext. intros k Hk. apply big_sum_ext. intros q Hq.
    cbn [at4]. rewrite !bidx_lt by assumption.
    unfold mut_pos, mut_aa, seq_pos. cbn [neg4 idx3 at3 at4 at5].
    rewrite !wrap_of_nat.
    destruct (Da p a k Hp Ha Hk) as [_ ->].
    destruct (Da p a q Hp Ha Hq) as [_ ->]. reflexivity.
Qed.

Lemma wrap_lt (d : nat) (k : Z) : in_bounds d k = true -> (wrap d k < d)%nat.
Proof.
  unfold in_bounds, wrap. intros Hb. apply andb_true_iff in Hb as [H1 H2].
  apply Z.leb_le in H1. apply Z.ltb_lt in H2.
  destruct (Z.ltb_spec k 0); lia.
Qed.

Lemma sym_lt (seq : string) (i : nat) :
  (i < String.length seq)%nat -> (sym seq i < 21)%nat.
Proof. intros Hi. apply wrap_lt, seq_index_in_bounds, Hi. Qed.

Lemma mutant_native (seq : string) (i k : nat) :
  mutant seq i (sym seq i) k = sym seq k.
Proof. unfold mutant. destruct (Nat.eqb_spec k i); congruence. Qed.

(** A symmetric distance matrix gives a symmetric mask. *)
Lemma contact_symmetric (D : arr2 R) (dc : option R) (sc : option Z)
    (i j : nat) :
  at2 D i j = at2 D j i -> contact D dc sc i j = contact D dc sc j i.
Proof.
  intros HD. unfold contact. rewrite HD. f_equal.
  destruct sc as [c|]; [|reflexivity].
  replace (Z.of_nat j - Z.of_nat i)%Z with (- (Z.of_nat i - Z.of_nat j))%Z
    by lia.
  now rewrite Z.abs_opp.
Qed.

(** C2: for a non-empty sequence, a well-formed model and a symmetric mask,
    the singleresidue decoy that puts the native symbol back has exactly the
    native energy: [decoy_energy[i, s[i]] = native_energy] at every position
    [i], that is, the self-substitution fluctuation is zero. *)
Theorem self_substitution_decoy_has_native_energy (seq : string)
    (m : PottsModel) (D : arr2 R) (dc : option R) (sc : option Z) :
  seq <> EmptyString ->
  well_formed (String.length seq) m ->
  distance_ok (String.length seq) D dc ->
  (forall i j, (i < String.length seq)%nat -> (j < String.length seq)%nat ->
     contact D dc sc i j = contact D dc sc j i) ->
  exists decoy_energy native_energy,
    compute_singleresidue_decoy_energy seq m D dc sc = inr decoy_energy
    /\ compute_native_energy seq m D dc sc = inr native_energy
    /\ forall i, (i < String.length seq)%nat ->
         at2 decoy_energy i (sym seq i) = native_energy
         /\ at2 decoy_energy i (sym seq i) - native_energy = 0.
Proof.
  intros Hne Hwf HD Hsym.
  destruct (interaction_mask_spec _ D dc sc HD) as (mask & Hm & Hr & Hc & He).
  destruct (decoy_energy_value seq m D dc sc mask Hne Hwf Hm)
    as (E & HE & _ & _ & Hval).
  exists E. eexists. split; [exact HE|].
  split; [apply (native_energy_value seq m _ D dc sc mask Hne Hwf
                   (Nat.le_refl _) Hm)|].
  intros i Hi.
  assert (Heq : at2 E i (sym seq i)
                = big_sum (String.length seq)
                    (fun i0 => - at2 (h m) i0 (sym seq i0))
                  + big_sum (String.length seq) (fun i0 =>
                      big_sum (String.length seq) (fun j =>
                        - at4 (J m) i0 j (sym seq i0) (sym seq j)
                        * at2 mask i0 j)) / 2).
  { rewrite (Hval i (sym seq i) Hi (sym_lt seq i Hi)). f_equal.
    - apply big_sum_ext. intros k Hk. now rewrite mutant_native.
    - f_equal. rewrite big_sum_swap. apply big_sum_ext. intros q Hq.
      apply big_sum_ext. intros k Hk. rewrite !mutant_native.
      rewrite (He k q Hk Hq), (He q k Hq Hk), (Hsym k q Hk Hq). reflexivity. }
  split; [exact Heq | rewrite Heq; lra].
Qed.

(** ** Symmetry and diagonal of the mask *)

(** C5, as stated, fails: with neither cutoff set the mask is all ones, so
    its diagonal is 1 and not 0. *)
Lemma mask_without_cutoffs_has_unit_diagonal :
  interaction_mask 2 (Arr2 2 2 (fun _ _ => 0)) None None = inr (ones 2 2)
  /\ at2 (ones 2 2) 0 0 = 1
  /\ at2 (ones 2 2) 0 0 <> 0.
Proof.
  split; [reflexivity|]. split; [reflexivity|]. simpl. lra.
Qed.

(** C5, amended: the mask built from a symmetric L x L distance matrix is
    symmetric for every combination of cutoffs, and its diagonal is zero
    whenever the sequence-separation cutoff is set and not negative. *)
Theorem mask_symmetric_and_zero_diagonal (L : nat) (D : arr2 R)
    (dc : option R) (sc : option Z) :
  rows2 D = L -> cols2 D = L ->
  (forall i j, (i < L)%nat -> (j < L)%nat -> at2 D i j = at2 D j i) ->
  exists mask,
    interaction_mask L D dc sc = inr mask
    /\ rows2 mask = L /\ cols2 mask = L
    /\ (forall i j, (i < L)%nat -> (j < L)%nat -> at2 mask i j = at2 mask j i)
    /\ (forall c, sc = Some c -> (0 <= c)%Z ->
        forall i, (i < L)%nat -> at2 mask i i = 0).
Proof.
  intros Hr Hc Hsym.
  destruct (interaction_mask_spec L D dc sc) as (mask & Hm & Hmr & Hmc & He).
  { right. split; assumption. }
  exists mask. repeat split; try assumption.
  - intros i j Hi Hj. rewrite !He by assumption. f_equal.
    apply contact_symmetric, Hsym; assumption.
  - intros c -> Hc0 i Hi. rewrite He by assumption. unfold contact.
    rewrite Z.sub_diag. change (Z.abs 0) with 0%Z.
    destruct (Z.ltb_spec c 0); [lia|]. reflexivity.
Qed.

(** ** Sequences of the wrong length *)

(** C8, as stated, fails: a sequence of one letter against a model over two
    positions raises nothing when no distance cutoff is set; an energy comes
    back. *)
Lemma short_sequence_is_accepted :
  String.length "A" <> rows2 (h (zero_model 2))
  /\ exists e,
       compute_native_energy "A" (zero_model 2) (Arr2 2 2 (fun _ _ => 0))
                             None None = inr e.
Proof.
  split; [simpl; lia|]. eexists. vm_compute. reflexivity.
Qed.

Lemma long_sequence_index_error (seq : string) (m : PottsModel) (L : nat)
    (D : arr2 R) (dc : option R) (sc : option Z) :
  well_formed L m -> (L < String.length seq)%nat ->
  compute_native_energy seq m D dc sc = inl IndexError.
Proof.
  intros (Hr & Hc & HJ) Hlt.
  unfold compute_native_energy, take2.
  destruct (negb _); [reflexivity|].
  destruct (negb (ilen _ =? _)%nat); [reflexivity|].
  rewrite (all_lt_false _ _ L); [reflexivity| |].
  - rewrite seq_index_len. exact Hlt.
  - apply andb_false_iff. left. rewrite Hr. unfold iat. simpl.
    apply in_bounds_of_nat_ge. lia.
Qed.

Lemma interaction_mask_mismatch (n L : nat) (D : arr2 R) (c : R)
    (sc : option Z) :
  rows2 D = L -> n <> L -> L <> 1%nat ->
  interaction_mask n D (Some c) sc = inl ValueError.
Proof.
  intros Hr Hn H1. unfold interaction_mask.
  assert (Hbad : forall mask : arr2 R, rows2 mask = n ->
            imul2 mask (le_scalar D c) = inl ValueError).
  { intros mask Hm. unfold imul2. cbn [le_scalar rows2 cols2].
    rewrite Hr, Hm.
    destruct (Nat.eqb_spec L n); [congruence|].
    destruct (Nat.eqb_spec L 1); [congruence|]. reflexivity. }
  destruct sc as [s|]; cbn [bind ret].
  - unfold imul2 at 1. cbn [gt_scalar sequence_distance ones rows2 cols2].
    rewrite !Nat.eqb_refl. cbn [orb andb bind ret]. now rewrite Hbad.
  - now rewrite Hbad.
Qed.

(** C8, amended: a sequence longer than the model fails with the
    [IndexError] of the first index operation; a shorter sequence fails only
    when a distance cutoff is set (the [ValueError] of applying the L x L
    distance matrix to the smaller mask), and with no distance cutoff an
    energy over the positions of the sequence is returned. *)
Theorem length_mismatch_outcomes (seq : string) (m : PottsModel) (L : nat)
    (D : arr2 R) (dc : option R) (sc : option Z) :
  seq <> EmptyString ->
  well_formed L m ->
  rows2 D = L -> cols2 D = L ->
  String.length seq <> L ->
  ((L < String.length seq)%nat ->
     compute_native_energy seq m D dc sc = inl IndexError)
  /\ ((String.length seq < L)%nat -> dc <> None ->
        compute_native_energy seq m D dc sc = inl ValueError)
  /\ ((String.length seq < L)%nat -> dc = None ->
        exists mask,
          interaction_mask (String.length seq) D dc sc = inr mask
          /\ compute_native_energy seq m D dc sc
             = inr (big_sum (String.length seq)
                            (fun i => - at2 (h m) i (sym seq i))
                    + big_sum (String.length seq) (fun i =>
                        big_sum (String.length seq) (fun j =>
                          - at4 (J m) i j (sym seq i) (sym seq j)
                          * at2 mask i j)) / 2)).
Proof.
  intros Hne Hwf Hr Hc Hlen. split; [|split].
  - intros Hlt. apply (long_sequence_index_error seq m L); assumption.
  - intros Hlt Hdc. destruct dc as [c|]; [|congruence].
    rewrite (native_energy_after_indexing seq m L D (Some c) sc Hne Hwf)
      by lia.
    cbv zeta. rewrite (interaction_mask_mismatch _ L); try assumption.
    + reflexivity.
    + destruct seq; [congruence|]. simpl in Hlt. lia.
  - intros Hlt ->.
    destruct (interaction_mask_spec (String.length seq) D None sc)
      as (mask & Hm & _); [left; reflexivity|].
    exists mask. split; [exact Hm|].
    apply (native_energy_value seq m L); try assumption. lia.
Qed.

Lemma length_mismatch_outcomes_witness :
  compute_native_energy "ACD" (zero_model 2) (Arr2 2 2 (fun _ _ => 0))
                        None None = inl IndexError.
Proof.
  apply (length_mismatch_outcomes "ACD" (zero_model 2) 2
           (Arr2 2 2 (fun _ _ => 0)) None None).
  - discriminate.
  - repeat split.
  - reflexivity.
  - reflexivity.
  - simpl. lia.
  - simpl. lia.
Defined.

(** ** Letters outside the alphabet *)

Lemma read_as_Y_length (seq : string) :
  String.length (read_as_Y seq) = String.length seq.
Proof. induction seq as [|c s IH]; simpl; [reflexivity|now f_equal]. Qed.

Lemma read_as_Y_nonempty (seq : string) :
  seq <> EmptyString -> read_as_Y seq <> EmptyString.
Proof. destruct seq; [congruence|discriminate]. Qed.

Lemma wrap_find_Y (c : ascii) :
  wrap 21 (find AA (if (find AA c =? -1)%Z then "Y"%char else c))
  = wrap 21 (find AA c).
Proof.
  destruct (Z.eqb_spec (find AA c) (-1)) as [E|E]; [|reflexivity].
  rewrite E. reflexivity.
Qed.

Lemma sym_read_as_Y (seq : string) (i : nat) :
  sym (read_as_Y seq) i = sym seq i.
Proof.
  unfold sym, iat, seq_index_of, array. cbn [idx1 at1].
  revert i. induction seq as [|c s IH]; intros i; [reflexivity|].
  destruct i as [|i]; cbn [read_as_Y list_ascii_of_string map nth].
  - apply wrap_find_Y.
  - apply IH.
Qed.

Lemma mutant_read_as_Y (seq : string) (p a k : nat) :
  mutant (read_as_Y seq) p a k = mutant seq p a k.
Proof. unfold mutant. now rewrite sym_read_as_Y. Qed.

(** C10: a letter outside the alphabet raises nothing.  The search gives -1,
    which indexes the last symbol, "Y": on a non-empty sequence with a
    well-formed model, both energy functions return, and they return what
    they return for the same sequence with every such letter read as "Y". *)
Theorem unknown_letters_are_read_as_Y (seq : string) (m : PottsModel)
    (D : arr2 R) (dc : option R) (sc : option Z) :
  seq <> EmptyString ->
  well_formed (String.length seq) m ->
  distance_ok (String.length seq) D dc ->
  (exists e,
     compute_native_energy seq m D dc sc = inr e
     /\ compute_native_energy (read_as_Y seq) m D dc sc = inr e)
  /\ (exists E E',
        compute_singleresidue_decoy_energy seq m D dc sc = inr E
        /\ compute_singleresidue_decoy_energy (read_as_Y seq) m D dc sc
           = inr E'
        /\ rows2 E = rows2 E' /\ cols2 E = cols2 E'
        /\ forall p a, (p < String.length seq)%nat -> (a < 21)%nat ->
             at2 E p a = at2 E' p a).
Proof.
  intros Hne Hwf HD.
  destruct (interaction_mask_spec _ D dc sc HD) as (mask & Hm & _).
  pose proof (read_as_Y_nonempty seq Hne) as Hne'.
  pose proof (read_as_Y_length seq) as Hlen.
  assert (Hwf' : well_formed (String.length (read_as_Y seq)) m)
    by (now rewrite Hlen).
  assert (Hm' : interaction_mask (String.length (read_as_Y seq)) D dc sc
                = inr mask) by (now rewrite Hlen).
  split.
  - eexists. split.
    + apply (native_energy_value seq m _ D dc sc mask Hne Hwf
               (Nat.le_refl _) Hm).
    + rewrite (native_energy_value _ m _ D dc sc mask Hne' Hwf'
                 (Nat.le_refl _) Hm').
      rewrite Hlen. f_equal. f_equal.
      * apply big_sum_ext. intros i _. now rewrite sym_read_as_Y.
      * f_equal. apply big_sum_ext. intros i _. apply big_sum_ext.
        intros j _. now rewrite !sym_read_as_Y.
  - destruct (decoy_energy_value seq m D dc sc mask Hne Hwf Hm)
      as (E & HE & Hr & Hc & Hval).
    destruct (decoy_energy_value _ m D dc sc mask Hne' Hwf' Hm')
      as (E' & HE' & Hr' & Hc' & Hval').
    exists E, E'. split; [exact HE|]. split; [exact HE'|].
    split; [congruence|]. split; [congruence|].
    intros p a Hp Ha. rewrite (Hval p a Hp Ha).
    rewrite (Hval' p a) by (rewrite ?Hlen; assumption).
    rewrite Hlen. f_equal.
    + apply big_sum_ext. intros k _. now rewrite mutant_read_as_Y.
    + f_equal. apply big_sum_ext. intros k _. apply big_sum_ext.
      intros q _. now rewrite !mutant_read_as_Y.
Qed.

(** ** The singleresidue frustration index *)

Lemma frustration_weighted (decoy_energy : arr2 R) (native_energy : R)
    (w : arr1 R) :
  cols2 decoy_energy = 21%nat -> len1 w = 21%nat ->
  (forall a, (a < 21)%nat -> 0 <= at1 w a) ->
  0 < big_sum 21 (at1 w) ->
  exists F,
    compute_singleresidue_frustration decoy_energy native_energy (Some w)
    = inr F
    /\ len1 F = rows2 decoy_energy
    /\ forall i, (i < rows2 decoy_energy)%nat ->
         at1 F i
         = divide (native_energy - mean_w (at1 w) (at2 decoy_energy i))
                  (Fin (std_w (at1 w) (at2 decoy_energy i))).
Proof.
  intros Hc Hw Hpos Htot.
  unfold compute_singleresidue_frustration, mul1_2.
  cbn [square2 sub_column rows2 cols2]. rewrite Hc, Hw, bdim_same.
  cbn [bind ret]. eexists. split; [reflexivity|]. split; [reflexivity|].
  intros i Hi.
  cbn [at1 at2 len1 sum_last2 div_scalar1 div_scalar2 rows2 cols2
       square2 sub_column].
  unfold sum1. rewrite Hw. destruct (Req_dec_T (big_sum 21 (at1 w)) 0) as [E0|_]; [lra|].
  cbn [bidx Nat.eqb].
  change (big_sum 21 (fun j => at1 w j * at2 decoy_energy i j)
          / big_sum 21 (at1 w))
    with (mean_w (at1 w) (at2 decoy_energy i)).
  f_equal.
  set (mu := mean_w (at1 w) (at2 decoy_energy i)).
  assert (Hvar : big_sum 21 (fun j =>
                   at1 w j
                   * ((at2 decoy_energy i j - mu)
                      * (at2 decoy_energy i j - mu))
                   / big_sum 21 (at1 w))
                 = big_sum 21 (fun a =>
                     at1 w a * (at2 decoy_energy i a - mu) ^ 2)
                   / big_sum 21 (at1 w)).
  { unfold Rdiv. rewrite <- big_sum_scal. apply big_sum_ext. intros j Hj.
    simpl. lra. }
  rewrite Hvar. unfold np.sqrt, std_w. fold mu.
  destruct (Rlt_dec _ 0) as [Hneg|_]; [|reflexivity].
  exfalso. apply (Rlt_not_le _ _ Hneg).
  apply Rmult_le_pos; [|left; apply Rinv_0_lt_compat, Htot].
  apply big_sum_nonneg. intros a Ha. apply Rmult_le_pos; [apply Hpos, Ha|].
  apply pow2_ge_0.
Qed.

(** C4: for an L x 21 table of decoy energies, a native energy and 21
    non-negative weights of positive total, the index at each position is
    (native_energy - mean_w) / std_w, with the weighted mean and standard
    deviation of that position's row; with no weights given, the weights
    are uniform over the 21 symbols. *)
Theorem frustration_is_weighted_z_score (decoy_energy : arr2 R)
    (native_energy : R) (w : arr1 R) :
  cols2 decoy_energy = 21%nat -> len1 w = 21%nat ->
  (forall a, (a < 21)%nat -> 0 <= at1 w a) ->
  0 < big_sum 21 (at1 w) ->
  (exists F,
     compute_singleresidue_frustration decoy_energy native_energy (Some w)
     = inr F
     /\ len1 F = rows2 decoy_energy
     /\ forall i, (i < rows2 decoy_energy)%nat ->
          at1 F i
          = divide (native_energy - mean_w (at1 w) (at2 decoy_energy i))
                   (Fin (std_w (at1 w) (at2 decoy_energy i))))
  /\ (exists F,
        compute_singleresidue_frustration decoy_energy native_energy None
        = inr F
        /\ len1 F = rows2 decoy_energy
        /\ forall i, (i < rows2 decoy_energy)%nat ->
             at1 F i
             = divide (native_energy
                       - mean_w (fun _ => 1) (at2 decoy_energy i))
                      (Fin (std_w (fun _ => 1) (at2 decoy_energy i)))).
Proof.
  intros Hc Hw Hpos Htot. split.
  - apply frustration_weighted; assumption.
  - change (compute_singleresidue_frustration decoy_energy native_energy None)
      with (compute_singleresidue_frustration decoy_energy native_energy
              (Some uniform)).
    apply (frustration_weighted decoy_energy native_energy uniform Hc).
    + reflexivity.
    + intros a _. simpl. lra.
    + simpl. lra.
Qed.

(** ** A degenerate decoy distribution *)

Lemma mean_w_flat : mean_w (at1 uniform) (at2 flat_row 0) = 0.
Proof. unfold mean_w, flat_row. simpl. lra. Qed.

Lemma std_w_flat : std_w (at1 uniform) (at2 flat_row 0) = 0.
Proof.
  unfold std_w. rewrite mean_w_flat.
  replace (big_sum 21 _ / big_sum 21 _) with 0; [apply sqrt_0|].
  unfold flat_row. simpl. lra.
Qed.

(** C7, as stated, fails: on a row of equal decoy energies the standard
    deviation is zero, and the function returns normally, with an infinity
    at that position. *)
Lemma zero_deviation_gives_silent_infinity :
  std_w (at1 uniform) (at2 flat_row 0) = 0
  /\ exists F,
       compute_singleresidue_frustration flat_row 1 None = inr F
       /\ at1 F 0 = PosInf.
Proof.
  split; [apply std_w_flat|].
  change (compute_singleresidue_frustration flat_row 1 None)
    with (compute_singleresidue_frustration flat_row 1 (Some uniform)).
  destruct (frustration_weighted flat_row 1 uniform)
    as (F & HF & _ & Hval); try reflexivity.
  - intros a _. simpl. lra.
  - simpl. lra.
  - exists F. split; [exact HF|]. rewrite Hval by (simpl; lia).
    rewrite std_w_flat, mean_w_flat. unfold divide.
    destruct (Req_dec_T 0 0) as [_|N]; [|congruence].
    destruct (Req_dec_T (1 - 0) 0) as [E|_]; [lra|].
    destruct (Rlt_dec 0 (1 - 0)) as [_|N]; [reflexivity|lra].
Qed.

(** C7, amended: where the weighted standard deviation of a position is
    zero, no error is raised; the function returns its array, and the entry
    of that position is the quotient by zero: NaN when the native energy
    equals the weighted mean, plus or minus infinity otherwise. *)
Theorem zero_deviation_yields_nan_or_infinity (decoy_energy : arr2 R)
    (native_energy : R) (w : arr1 R) (i : nat) :
  cols2 decoy_energy = 21%nat -> len1 w = 21%nat ->
  (forall a, (a < 21)%nat -> 0 <= at1 w a) ->
  0 < big_sum 21 (at1 w) ->
  (i < rows2 decoy_energy)%nat ->
  std_w (at1 w) (at2 decoy_energy i) = 0 ->
  exists F,
    compute_singleresidue_frustration decoy_energy native_energy (Some w)
    = inr F
    /\ (native_energy = mean_w (at1 w) (at2 decoy_energy i) ->
        at1 F i = NaN)
    /\ (native_energy > mean_w (at1 w) (at2 decoy_energy i) ->
        at1 F i = PosInf)
    /\ (native_energy < mean_w (at1 w) (at2 decoy_energy i) ->
        at1 F i = NegInf).
Proof.
  intros Hc Hw Hpos Htot Hi Hstd.
  destruct (frustration_weighted decoy_energy native_energy w Hc Hw Hpos Htot)
    as (F & HF & _ & Hval).
  exists F. split; [exact HF|]. rewrite (Hval i Hi), Hstd. unfold divide.
  destruct (Req_dec_T 0 0) as [_|N]; [|congruence].
  repeat split; intros Hcmp.
  - destruct (Req_dec_T _ 0) as [_|N]; [reflexivity|lra].
  - destruct (Req_dec_T _ 0) as [E|_]; [lra|].
    destruct (Rlt_dec 0 _) as [_|N]; [reflexivity|lra].
  - destruct (Req_dec_T _ 0) as [E|_]; [lra|].
    destruct (Rlt_dec 0 _) as [L|_]; [lra|reflexivity].
Qed.

(** ** Fields, couplings and their sum *)

Import frustration.

(** C3: for every sequence of the model's length and every combination of
    the two gap flags, [fields_energy + couplings_energy] is
    [native_energy], on the energy functions as section 4.2 of the spec
    defines them, called through the class with an explicit sequence; the
    equality is exact over the reals, hence within 1e-6. *)
Theorem fields_plus_couplings_is_native
    (mutational configurational contact :
       string -> PottsModel -> arr2 R -> result (arr4 R))
    (self : Frustratometer.t) (seq : string)
    (ignore_couplings_of_gaps ignore_fields_of_gaps : bool) :
  let api := spec_api mutational configurational contact in
  String.length seq = rows2 (h (Frustratometer.potts_model self)) ->
  exists f c e,
    Frustratometer.fields_energy self (Some seq) ignore_fields_of_gaps
    = inr (self, f)
    /\ Frustratometer.couplings_energy self (Some seq)
         ignore_couplings_of_gaps = inr (self, c)
    /\ Frustratometer.native_energy self (Some seq) ignore_couplings_of_gaps
         ignore_fields_of_gaps = inr (self, e)
    /\ f + c = e
    /\ Rabs (f + c - e) < 1 / 1000000.
Proof.
  intros api Hlen.
  unfold Frustratometer.fields_energy, Frustratometer.couplings_energy,
    Frustratometer.native_energy.
  cbn [default from_option Datatypes.id compute_fields_energy
       compute_couplings_energy compute_native_energy api spec_api].
  unfold spec_fields_energy, spec_couplings_energy, spec_native_energy,
    check_length.
  rewrite Hlen, Nat.eqb_refl. cbn [bind ret].
  eexists _, _, _. split; [reflexivity|]. split; [reflexivity|].
  split; [reflexivity|]. split; [reflexivity|].
  match goal with |- Rabs ?x < _ => replace x with 0 by lra end.
  rewrite Rabs_R0. lra.
Qed.

(** ** The cache of the native energy *)

(** Once a non-zero energy is stored, [native_energy()] returns it whatever
    the flags of the call are. *)
Lemma native_energy_returns_stored `{frustration.api}
    (self : Frustratometer.t) (e : R)
    (ignore_couplings_of_gaps ignore_fields_of_gaps : bool) :
  Frustratometer._native_energy self = Some e -> e <> 0 ->
  Frustratometer.native_energy self None ignore_couplings_of_gaps
    ignore_fields_of_gaps = inr (self, e).
Proof.
  intros Hs He. unfold Frustratometer.native_energy. rewrite Hs.
  unfold Frustratometer.not_. destruct (Req_dec_T e 0); [contradiction|].
  reflexivity.
Qed.

(** C9 fails on [native_energy]: on a new object, [native_energy()] is -3;
    after a call [native_energy(ignore_fields_of_gaps=True)], which returns
    -2 and stores it, the same call [native_energy()] returns -2.  The
    stored value is returned without looking at the flags. *)
Theorem native_energy_depends_on_earlier_call
    (mutational configurational contact :
       string -> PottsModel -> arr2 R -> result (arr4 R)) :
  let api := spec_api mutational configurational contact in
  exists later e_gaps_ignored e_cached fresh e_fresh,
    Frustratometer.native_energy gap_object None false true
    = inr (later, e_gaps_ignored)
    /\ e_gaps_ignored = -2
    /\ Frustratometer.native_energy later None false false
       = inr (later, e_cached)
    /\ e_cached = -2
    /\ Frustratometer.native_energy gap_object None false false
       = inr (fresh, e_fresh)
    /\ e_fresh = -3.
Proof.
  intros api. eexists _, _, _, _, _.
  split; [unfold Frustratometer.native_energy; cbn; reflexivity|].
  split; [vm_compute; lra|].
  split.
  { apply native_energy_returns_stored; [reflexivity | vm_compute; lra]. }
  split; [vm_compute; lra|].
  split; [unfold Frustratometer.native_energy; cbn; reflexivity|].
  vm_compute; lra.
Qed.

(** ** The cache of the decoy fluctuations *)

(** A call without a sequence returns the stored tensor of the kind, whatever
    mask is passed and whatever sequence the tensor was computed for. *)
Lemma decoy_fluctuation_returns_stored `{frustration.api}
    (self : Frustratometer.t) (kind : string) (f : ndarray)
    (mask : option (arr2 R)) :
  Frustratometer._decoy_fluctuation self !! kind = Some f ->
  Frustratometer.decoy_fluctuation self None kind mask = inr (self, f).
Proof.
  intros Hs. unfold Frustratometer.decoy_fluctuation. now rewrite Hs.
Qed.

(** A call with an explicit sequence always computes, and stores the result
    under the kind alone. *)
Lemma decoy_fluctuation_explicit_stores `{frustration.api}
    (self : Frustratometer.t) (seq kind : string) (f : ndarray) :
  Frustratometer.compute_fluctuation kind seq
    (Frustratometer.potts_model self) (Frustratometer.mask self) = inr f ->
  Frustratometer.decoy_fluctuation self (Some seq) kind None
  = inr (Frustratometer.set_decoy_fluctuation self kind f, f)
  /\ Frustratometer._decoy_fluctuation
       (Frustratometer.set_decoy_fluctuation self kind f) !! kind = Some f.
Proof.
  intros Hc. unfold Frustratometer.decoy_fluctuation.
  cbn [default from_option Datatypes.id]. rewrite Hc. split; [reflexivity|].
  cbn [Frustratometer.set_decoy_fluctuation
       Frustratometer._decoy_fluctuation].
  apply lookup_insert_eq.
Qed.

(** C6 fails: on an object whose sequence is "A", the call
    [decoy_fluctuation(sequence="C")] stores the tensor of "C" under the kind;
    the next call [decoy_fluctuation()], with any mask, returns that tensor
    (entry [0, 0] is 2), while the tensor of the object's own sequence, which
    a new object returns, has 1 there. *)
Theorem decoy_fluctuation_returns_other_sequence
    (mutational configurational contact :
       string -> PottsModel -> arr2 R -> result (arr4 R)) :
  let api := spec_api mutational configurational contact in
  exists later f_other fresh f_own,
    Frustratometer.decoy_fluctuation ladder_object (Some "C")
      "singleresidue" None = inr (later, Rank2 f_other)
    /\ at2 f_other 0 0 = 2
    /\ (forall mask,
          Frustratometer.decoy_fluctuation later None "singleresidue" mask
          = inr (later, Rank2 f_other))
    /\ Frustratometer.decoy_fluctuation ladder_object None
         "singleresidue" None = inr (fresh, Rank2 f_own)
    /\ at2 f_own 0 0 = 1.
Proof.
  intros api.
  destruct (decoy_fluctuation_explicit_stores ladder_object "C"
              "singleresidue"
              (Rank2 (Arr2 1 21 (fun i a =>
                 (- at2 (h ladder_model) i a
                  - - at2 (h ladder_model) i (symbol "C" i))
                 + big_sum 1 (fun j =>
                     if (j =? i)%nat then 0
                     else (- at4 (J ladder_model) i j a (symbol "C" j)
                           - - at4 (J ladder_model) i j (symbol "C" i)
                                   (symbol "C" j))
                          * at2 (Frustratometer.mask ladder_object) i j)))))
    as [Hcall Hstored]; [reflexivity|].
  eexists _, _, _, _. split; [exact Hcall|].
  split; [vm_compute; lra|].
  split.
  { intros mask. apply decoy_fluctuation_returns_stored, Hstored. }
  split; [reflexivity|].
  vm_compute; lra.
Qed.

(** ** Concrete runs *)

(** "AC" has symbols 1 and 2: fields -(1 + 2), and with no cutoff the four
    couplings of the all-ones mask, -(4 * 1) / 2. *)
Example native_energy_AC :
  exists e,
    dca_frustratometer.compute_native_energy
      "AC" toy_model toy_distances None None = inr e
    /\ e = -5.
Proof. eexists. split; [vm_compute; reflexivity | lra]. Qed.

(** With a sequence separation above 0 only the two off-diagonal couplings
    remain. *)
Example native_energy_AC_separated :
  exists e,
    dca_frustratometer.compute_native_energy
      "AC" toy_model toy_distances None (Some 0%Z) = inr e
    /\ e = -4.
Proof.
  destruct (interaction_mask_spec 2 toy_distances None (Some 0%Z))
    as (mask & Hm & _ & _ & He); [left; reflexivity|].
  eexists. split.
  - apply (native_energy_value "AC" toy_model 2 toy_distances None
             (Some 0%Z) mask); [discriminate | repeat split | simpl; lia
                               | exact Hm].
  - simpl. rewrite !He by lia. vm_compute. lra.
Qed.

Example unknown_letter_index :
  find AA "X" = (-1)%Z /\ wrap 21 (-1) = 20%nat /\ find AA "Y" = 20%Z.
Proof. repeat split. Qed.

Example empty_sequence_is_refused :
  dca_frustratometer.compute_native_energy
    EmptyString (zero_model 0) (Arr2 0 0 (fun _ _ => 0)) None None
  = inl IndexError.
Proof. reflexivity. Qed.

(** Mutating position 0 of "AC" to the gap: fields -(0 + 2). *)
Example decoy_energy_AC :
  exists E,
    compute_singleresidue_decoy_energy "AC" toy_model toy_distances
                                       None None = inr E
    /\ rows2 E = 2%nat /\ cols2 E = 21%nat
    /\ at2 E 0 0 = -4 /\ at2 E 0 1 = -5.
Proof.
  eexists. split; [vm_compute; reflexivity|].
  split; [reflexivity|]. split; [reflexivity|]. split; vm_compute; lra.
Qed.

(** The symmetry of the mask is what C2 rests on: the decoy energies read
    the coupling [J[q, k]] against [mask[k, q]], the native energy reads
    [J[i, j]] against [mask[i, j]].  On a table that is not symmetric the
    two differ. *)
Example skew_mask_separates_decoy_and_native :
  exists E e,
    compute_singleresidue_decoy_energy "AC" skew_model skew_distances
                                       (Some 5) None = inr E
    /\ dca_frustratometer.compute_native_energy
         "AC" skew_model skew_distances (Some 5) None = inr e
    /\ at2 E 0 (sym "AC" 0) = 0
    /\ e = - (1 / 2).
Proof.
  destruct (interaction_mask_spec 2 skew_distances (Some 5) None)
    as (mask & Hm & _ & _ & He); [right; split; reflexivity|].
  destruct (decoy_energy_value "AC" skew_model skew_distances (Some 5) None
              mask) as (E & HE & _ & _ & Hval);
    [discriminate | repeat split | exact Hm |].
  exists E. eexists. split; [exact HE|]. split.
  { apply (native_energy_value "AC" skew_model 2 skew_distances (Some 5)
             None mask); [discriminate | repeat split | simpl; lia
                         | exact Hm]. }
  assert (M01 : at2 mask 0 1 = 1).
  { rewrite He by lia. unfold contact, skew_distances. simpl.
    destruct (Rle_dec 0 5); [reflexivity|lra]. }
  assert (M10 : at2 mask 1 0 = 0).
  { rewrite He by lia. unfold contact, skew_distances. simpl.
    destruct (Rle_dec 9 5); [lra|reflexivity]. }
  split.
  - rewrite Hval by (try apply sym_lt; simpl; lia).
    change (sym "AC" 0) with 1%nat. simpl. rewrite M10. lra.
  - simpl. rewrite M01. lra.
Qed.

(** ** The theorems at concrete inputs *)

Lemma native_energy_is_negated_potts_sum_witness :
  exists mask,
    interaction_mask 2 toy_distances None None = inr mask
    /\ rows2 mask = 2%nat /\ cols2 mask = 2%nat
    /\ dca_frustratometer.compute_native_energy
         "AC" toy_model toy_distances None None
       = inr (big_sum 2 (fun i => - at2 (h toy_model) i (sym "AC" i))
              + 1 / 2 * big_sum 2 (fun i => big_sum 2 (fun j =>
                          - at4 (J toy_model) i j (sym "AC" i) (sym "AC" j)
                          * at2 mask i j))).
Proof.
  apply (native_energy_is_negated_potts_sum "AC" toy_model toy_distances
           None None).
  - discriminate.
  - repeat split.
  - left. reflexivity.
Defined.

Lemma self_substitution_decoy_has_native_energy_witness :
  exists decoy_energy native_energy,
    compute_singleresidue_decoy_energy "AC" toy_model toy_distances
                                       None None = inr decoy_energy
    /\ dca_frustratometer.compute_native_energy
         "AC" toy_model toy_distances None None = inr native_energy
    /\ forall i, (i < 2)%nat ->
         at2 decoy_energy i (sym "AC" i) = native_energy
         /\ at2 decoy_energy i (sym "AC" i) - native_energy = 0.
Proof.
  apply (self_substitution_decoy_has_native_energy "AC" toy_model
           toy_distances None None).
  - discriminate.
  - repeat split.
  - left. reflexivity.
  - intros i j _ _. reflexivity.
Defined.

Lemma fields_plus_couplings_is_native_witness :
  let api := spec_api no_pair_kind no_pair_kind no_pair_kind in
  exists f c e,
    Frustratometer.fields_energy gap_object (Some "-A") true
    = inr (gap_object, f)
    /\ Frustratometer.couplings_energy gap_object (Some "-A") true
       = inr (gap_object, c)
    /\ Frustratometer.native_energy gap_object (Some "-A") true true
       = inr (gap_object, e)
    /\ f + c = e
    /\ Rabs (f + c - e) < 1 / 1000000.
Proof.
  apply (fields_plus_couplings_is_native no_pair_kind no_pair_kind
           no_pair_kind gap_object "-A" true true).
  reflexivity.
Defined.

Lemma frustration_is_weighted_z_score_witness :
  (exists F,
     compute_singleresidue_frustration flat_row 1 (Some uniform) = inr F
     /\ len1 F = rows2 flat_row
     /\ forall i, (i < rows2 flat_row)%nat ->
          at1 F i
          = divide (1 - mean_w (at1 uniform) (at2 flat_row i))
                   (Fin (std_w (at1 uniform) (at2 flat_row i))))
  /\ (exists F,
        compute_singleresidue_frustration flat_row 1 None = inr F
        /\ len1 F = rows2 flat_row
        /\ forall i, (i < rows2 flat_row)%nat ->
             at1 F i
             = divide (1 - mean_w (fun _ => 1) (at2 flat_row i))
                      (Fin (std_w (fun _ => 1) (at2 flat_row i)))).
Proof.
  apply (frustration_is_weighted_z_score flat_row 1 uniform).
  - reflexivity.
  - reflexivity.
  - intros a _. simpl. lra.
  - simpl. lra.
Defined.

Lemma mask_symmetric_and_zero_diagonal_witness :
  exists mask,
    interaction_mask 2 toy_distances (Some 1) (Some 0%Z) = inr mask
    /\ rows2 mask = 2%nat /\ cols2 mask = 2%nat
    /\ (forall i j, (i < 2)%nat -> (j < 2)%nat -> at2 mask i j = at2 mask j i)
    /\ (forall c, Some 0%Z = Some c -> (0 <= c)%Z ->
        forall i, (i < 2)%nat -> at2 mask i i = 0).
Proof.
  apply (mask_symmetric_and_zero_diagonal 2 toy_distances (Some 1)
           (Some 0%Z)).
  - reflexivity.
  - reflexivity.
  - intros i j _ _. simpl. rewrite (Nat.eqb_sym i j). reflexivity.
Defined.

Lemma zero_deviation_yields_nan_or_infinity_witness :
  exists F,
    compute_singleresidue_frustration flat_row 1 (Some uniform) = inr F
    /\ (1 = mean_w (at1 uniform) (at2 flat_row 0) -> at1 F 0 = NaN)
    /\ (1 > mean_w (at1 uniform) (at2 flat_row 0) -> at1 F 0 = PosInf)
    /\ (1 < mean_w (at1 uniform) (at2 flat_row 0) -> at1 F 0 = NegInf).
Proof.
  apply (zero_deviation_yields_nan_or_infinity flat_row 1 uniform 0).
  - reflexivity.
  - reflexivity.
  - intros a _. simpl. lra.
  - simpl. lra.
  - simpl. lia.
  - apply std_w_flat.
Defined.

Lemma unknown_letters_are_read_as_Y_witness :
  (exists e,
     dca_frustratometer.compute_native_energy
       "AXC" (zero_model 3) (Arr2 3 3 (fun _ _ => 0)) None None = inr e
     /\ dca_frustratometer.compute_native_energy
          "AYC" (zero_model 3) (Arr2 3 3 (fun _ _ => 0)) None None = inr e)
  /\ (exists E E',
        compute_singleresidue_decoy_energy
          "AXC" (zero_model 3) (Arr2 3 3 (fun _ _ => 0)) None None = inr E
        /\ compute_singleresidue_decoy_energy
             "AYC" (zero_model 3) (Arr2 3 3 (fun _ _ => 0)) None None = inr E'
        /\ rows2 E = rows2 E' /\ cols2 E = cols2 E'
        /\ forall p a, (p < 3)%nat -> (a < 21)%nat ->
             at2 E p a = at2 E' p a).
Proof.
  apply (unknown_letters_are_read_as_Y "AXC" (zero_model 3)
           (Arr2 3 3 (fun _ _ => 0)) None None).
  - discriminate.
  - repeat split.
  - left. reflexivity.
Defined.

(** * Further properties of the code *)

(** ** The frustration index under changes of units and weights *)

Lemma big_sum_linear (n : nat) (w x : nat -> R) (k c : R) :
  big_sum n (fun a => w a * (k * x a + c))
  = k * big_sum n (fun a => w a * x a) + c * big_sum n w.
Proof. induction n as [|n IH]; simpl; [|rewrite IH]; lra. Qed.

Lemma big_sum_factor (n : nat) (k : R) (f : nat -> R) :
  big_sum n (fun a => k * f a) = k * big_sum n f.
Proof. induction n as [|n IH]; simpl; [|rewrite IH]; lra. Qed.

Lemma mean_w_affine (w x : nat -> R) (k c : R) :
  big_sum 21 w <> 0 ->
  mean_w w (fun a => k * x a + c) = k * mean_w w x + c.
Proof.
  intros HW. unfold mean_w. rewrite big_sum_linear. field. exact HW.
Qed.

Lemma std_w_affine (w x : nat -> R) (k c : R) :
  big_sum 21 w <> 0 -> 0 <= k ->
  std_w w (fun a => k * x a + c) = k * std_w w x.
Proof.
  intros HW Hk. unfold std_w. rewrite (mean_w_affine w x k c HW).
  set (mu := mean_w w x).
  replace (big_sum 21 (fun a => w a * (k * x a + c - (k * mu + c)) ^ 2)
           / big_sum 21 w)
    with (k * k * (big_sum 21 (fun a => w a * (x a - mu) ^ 2)
                   / big_sum 21 w)).
  - rewrite sqrt_mult_alt by nra. rewrite sqrt_square by exact Hk.
    reflexivity.
  - unfold Rdiv. rewrite <- Rmult_assoc. f_equal.
    rewrite <- big_sum_factor. apply big_sum_ext. intros a _. ring.
Qed.

Lemma mean_w_scale (w x : nat -> R) (k : R) :
  big_sum 21 w <> 0 -> k <> 0 ->
  mean_w (fun a => k * w a) x = mean_w w x.
Proof.
  intros HW Hk. unfold mean_w. rewrite big_sum_factor.
  replace (big_sum 21 (fun a => k * w a * x a))
    with (k * big_sum 21 (fun a => w a * x a)).
  - field. split; assumption.
  - rewrite <- big_sum_factor. apply big_sum_ext. intros a _. ring.
Qed.

Lemma std_w_scale (w x : nat -> R) (k : R) :
  big_sum 21 w <> 0 -> k <> 0 ->
  std_w (fun a => k * w a) x = std_w w x.
Proof.
  intros HW Hk. unfold std_w. rewrite (mean_w_scale w x k HW Hk).
  f_equal. rewrite big_sum_factor.
  replace (big_sum 21 (fun a => k * w a * (x a - mean_w w x) ^ 2))
    with (k * big_sum 21 (fun a => w a * (x a - mean_w w x) ^ 2)).
  - field. split; assumption.
  - rewrite <- big_sum_factor. apply big_sum_ext. intros a _. ring.
Qed.

Lemma divide_scale (k x s : R) :
  0 < k -> divide (k * x) (Fin (k * s)) = divide x (Fin s).
Proof.
  intros Hk. unfold divide.
  destruct (Req_dec_T s 0) as [Hs|Hs].
  - subst s. rewrite Rmult_0_r.
    destruct (Req_dec_T 0 0) as [_|N]; [|congruence].
    destruct (Req_dec_T x 0) as [Hx|Hx].
    + subst x. rewrite Rmult_0_r.
      destruct (Req_dec_T 0 0) as [_|N]; [reflexivity|congruence].
    + destruct (Req_dec_T (k * x) 0) as [E|_]; [nra|].
      destruct (Rlt_dec 0 x), (Rlt_dec 0 (k * x)); try reflexivity; nra.
  - destruct (Req_dec_T (k * s) 0) as [E|_]; [nra|].
    f_equal. field. split; [exact Hs|lra].
Qed.

(** Changing the unit or the origin of the energies does not change the
    index: with every decoy energy and the native energy replaced by
    [k * e + c], [k > 0], each entry stays what it was. *)
Theorem frustration_unchanged_by_affine_map (decoy_energy : arr2 R)
    (native_energy : R) (w : arr1 R) (k c : R) :
  cols2 decoy_energy = 21%nat -> len1 w = 21%nat ->
  (forall a, (a < 21)%nat -> 0 <= at1 w a) ->
  0 < big_sum 21 (at1 w) ->
  0 < k ->
  exists F F',
    compute_singleresidue_frustration decoy_energy native_energy (Some w)
    = inr F
    /\ compute_singleresidue_frustration (affine2 k c decoy_energy)
         (k * native_energy + c) (Some w) = inr F'
    /\ len1 F' = len1 F
    /\ forall i, (i < rows2 decoy_energy)%nat -> at1 F' i = at1 F i.
Proof.
  intros Hc Hw Hpos Htot Hk.
  destruct (frustration_weighted decoy_energy native_energy w Hc Hw Hpos Htot)
    as (F & HF & HlF & Hval).
  destruct (frustration_weighted (affine2 k c decoy_energy)
              (k * native_energy + c) w Hc Hw Hpos Htot)
    as (F' & HF' & HlF' & Hval').
  exists F, F'. split; [exact HF|]. split; [exact HF'|].
  split; [now rewrite HlF, HlF'|].
  intros i Hi. rewrite (Hval i Hi), (Hval' i Hi).
  change (at2 (affine2 k c decoy_energy) i)
    with (fun a => k * at2 decoy_energy i a + c).
  rewrite mean_w_affine, std_w_affine by lra.
  replace (k * native_energy + c
           - (k * mean_w (at1 w) (at2 decoy_energy i) + c))
    with (k * (native_energy - mean_w (at1 w) (at2 decoy_energy i)))
    by ring.
  apply divide_scale, Hk.
Qed.

Lemma frustration_unchanged_by_affine_map_witness :
  exists F F',
    compute_singleresidue_frustration flat_row 1 (Some uniform) = inr F
    /\ compute_singleresidue_frustration (affine2 2 3 flat_row)
         (2 * 1 + 3) (Some uniform) = inr F'
    /\ len1 F' = len1 F
    /\ forall i, (i < rows2 flat_row)%nat -> at1 F' i = at1 F i.
Proof.
  apply (frustration_unchanged_by_affine_map flat_row 1 uniform 2 3).
  - reflexivity.
  - reflexivity.
  - intros a _. simpl. lra.
  - simpl. lra.
  - lra.
Defined.

(** Only the proportions of the weights matter: multiplying every weight
    by one positive number leaves each entry what it was. *)
Theorem frustration_unchanged_by_weight_scale (decoy_energy : arr2 R)
    (native_energy : R) (w : arr1 R) (k : R) :
  cols2 decoy_energy = 21%nat -> len1 w = 21%nat ->
  (forall a, (a < 21)%nat -> 0 <= at1 w a) ->
  0 < big_sum 21 (at1 w) ->
  0 < k ->
  exists F F',
    compute_singleresidue_frustration decoy_energy native_energy (Some w)
    = inr F
    /\ compute_singleresidue_frustration decoy_energy native_energy
         (Some (scale1 k w)) = inr F'
    /\ len1 F' = len1 F
    /\ forall i, (i < rows2 decoy_energy)%nat -> at1 F' i = at1 F i.
Proof.
  intros Hc Hw Hpos Htot Hk.
  destruct (frustration_weighted decoy_energy native_energy w Hc Hw Hpos Htot)
    as (F & HF & HlF & Hval).
  destruct (frustration_weighted decoy_energy native_energy (scale1 k w) Hc)
    as (F' & HF' & HlF' & Hval').
  - exact Hw.
  - intros a Ha. simpl. apply Rmult_le_pos; [lra|apply Hpos, Ha].
  - change (at1 (scale1 k w)) with (fun a => k * at1 w a).
    rewrite big_sum_factor. apply Rmult_lt_0_compat; assumption.
  - exists F, F'. split; [exact HF|]. split; [exact HF'|].
    split; [now rewrite HlF, HlF'|].
    intros i Hi. rewrite (Hval i Hi), (Hval' i Hi).
    change (at1 (scale1 k w)) with (fun a => k * at1 w a).
    rewrite mean_w_scale, std_w_scale by lra. reflexivity.
Qed.

Lemma frustration_unchanged_by_weight_scale_witness :
  exists F F',
    compute_singleresidue_frustration flat_row 1 (Some uniform) = inr F
    /\ compute_singleresidue_frustration flat_row 1
         (Some (scale1 5 uniform)) = inr F'
    /\ len1 F' = len1 F
    /\ forall i, (i < rows2 flat_row)%nat -> at1 F' i = at1 F i.
Proof.
  apply (frustration_unchanged_by_weight_scale flat_row 1 uniform 5).
  - reflexivity.
  - reflexivity.
  - intros a _. simpl. lra.
  - simpl. lra.
  - lra.
Defined.

(** Weights that do not fit the table are refused: when the number of
    weights (21 when none are given) is neither the number of columns nor
    1, and the table has more than one column, the first product raises
    [ValueError]. *)
Theorem frustration_refuses_misfit_weights (decoy_energy : arr2 R)
    (native_energy : R) (aa_freq : option (arr1 R)) :
  weights_length aa_freq <> cols2 decoy_energy ->
  weights_length aa_freq <> 1%nat ->
  cols2 decoy_energy <> 1%nat ->
  compute_singleresidue_frustration decoy_energy native_energy aa_freq
  = inl ValueError.
Proof.
  intros Hne Hw1 Hc1. unfold compute_singleresidue_frustration, mul1_2.
  assert (Hb : bdim (weights_length aa_freq) (cols2 decoy_energy) = None).
  { unfold bdim.
    destruct (Nat.eqb_spec (weights_length aa_freq) (cols2 decoy_energy));
      [contradiction|].
    destruct (Nat.eqb_spec (weights_length aa_freq) 1); [contradiction|].
    destruct (Nat.eqb_spec (cols2 decoy_energy) 1); [contradiction|].
    reflexivity. }
  destruct aa_freq as [w|]; cbn [weights_length len1] in *; now rewrite Hb.
Qed.

Lemma frustration_refuses_misfit_weights_witness :
  compute_singleresidue_frustration (Arr2 3 20 (fun _ _ => 0)) 1 None
  = inl ValueError.
Proof.
  apply (frustration_refuses_misfit_weights (Arr2 3 20 (fun _ _ => 0)) 1
           None); simpl; lia.
Defined.

(** Where the weighted standard deviation is positive the entry is the
    finite number (native - mean) / std: zero exactly when the native
    energy is the weighted mean, and positive exactly when it lies above
    it. *)
Theorem frustration_sign (decoy_energy : arr2 R) (native_energy : R)
    (w : arr1 R) (i : nat) :
  cols2 decoy_energy = 21%nat -> len1 w = 21%nat ->
  (forall a, (a < 21)%nat -> 0 <= at1 w a) ->
  0 < big_sum 21 (at1 w) ->
  (i < rows2 decoy_energy)%nat ->
  0 < std_w (at1 w) (at2 decoy_energy i) ->
  exists F z,
    compute_singleresidue_frustration decoy_energy native_energy (Some w)
    = inr F
    /\ at1 F i = Fin z
    /\ z = (native_energy - mean_w (at1 w) (at2 decoy_energy i))
           / std_w (at1 w) (at2 decoy_energy i)
    /\ (z = 0 <-> native_energy = mean_w (at1 w) (at2 decoy_energy i))
    /\ (0 < z <-> mean_w (at1 w) (at2 decoy_energy i) < native_energy).
Proof.
  intros Hc Hw Hpos Htot Hi Hstd.
  destruct (frustration_weighted decoy_energy native_energy w Hc Hw Hpos Htot)
    as (F & HF & _ & Hval).
  exists F, ((native_energy - mean_w (at1 w) (at2 decoy_energy i))
             / std_w (at1 w) (at2 decoy_energy i)).
  split; [exact HF|]. split.
  { rewrite (Hval i Hi). unfold divide.
    destruct (Req_dec_T _ 0) as [E|_]; [lra|]. reflexivity. }
  split; [reflexivity|].
  set (mu := mean_w (at1 w) (at2 decoy_energy i)) in *.
  set (s := std_w (at1 w) (at2 decoy_energy i)) in *.
  assert (Hinv : 0 < / s) by (apply Rinv_0_lt_compat, Hstd).
  unfold Rdiv. split; split; intros Hz.
  - assert (native_energy - mu = 0); [|lra].
    destruct (Rmult_integral _ _ Hz); lra.
  - subst. replace (mu - mu) with 0 by lra. ring.
  - assert (0 < native_energy - mu); [|lra].
    destruct (Rlt_dec 0 (native_energy - mu)); [assumption|]. nra.
  - apply Rmult_lt_0_compat; lra.
Qed.

Lemma frustration_sign_witness :
  exists F z,
    compute_singleresidue_frustration spike_row 5 (Some uniform) = inr F
    /\ at1 F 0 = Fin z
    /\ z = (5 - mean_w (at1 uniform) (at2 spike_row 0))
           / std_w (at1 uniform) (at2 spike_row 0)
    /\ (z = 0 <-> 5 = mean_w (at1 uniform) (at2 spike_row 0))
    /\ (0 < z <-> mean_w (at1 uniform) (at2 spike_row 0) < 5).
Proof.
  apply (frustration_sign spike_row 5 uniform 0).
  - reflexivity.
  - reflexivity.
  - intros a _. simpl. lra.
  - simpl. lra.
  - simpl. lia.
  - apply sqrt_lt_R0. unfold mean_w. simpl. lra.
Defined.

(** ** The composition of a sequence *)

Import dca_frustratometer_rest.

Lemma big_sum_shift (n : nat) (f : nat -> R) :
  big_sum (S n) f = f 0%nat + big_sum n (fun k => f (S k)).
Proof.
  induction n as [|n IH]; [simpl; lra|].
  change (big_sum (S (S n)) f) with (big_sum (S n) f + f (S n)).
  rewrite IH. simpl. lra.
Qed.

Lemma big_sum_count {A : Type} (P : A -> bool) (l : list A) (d : A) :
  big_sum (length l) (fun k => of_bool (P (nth k l d)))
  = INR (length (List.filter P l)).
Proof.
  induction l as [|x l IH]; [reflexivity|].
  cbn [length]. rewrite big_sum_shift. cbn [nth List.filter]. rewrite IH.
  destruct (P x); cbn [of_bool length]; [rewrite S_INR|]; lra.
Qed.

Lemma sum_indicator (n : nat) (z : Z) :
  big_sum n (fun i => of_bool (z =? Z.of_nat i)%Z)
  = of_bool ((0 <=? z)%Z && (z <? Z.of_nat n)%Z).
Proof.
  induction n as [|n IH].
  - cbn [big_sum].
    destruct (Z.leb_spec 0 z), (Z.ltb_spec z (Z.of_nat 0)); simpl; try lra;
      exfalso; lia.
  - cbn [big_sum]. rewrite IH.
    destruct (Z.leb_spec 0 z), (Z.ltb_spec z (Z.of_nat n)),
      (Z.ltb_spec z (Z.of_nat (S n))), (Z.eqb_spec z (Z.of_nat n));
      simpl; try lra; exfalso; lia.
Qed.

Lemma seq_index_nth (seq : string) (k : nat) :
  iat (seq_index_of seq) k
  = find AA (nth k (list_ascii_of_string seq) "Y"%char)
  \/ (String.length seq <= k)%nat.
Proof.
  destruct (Nat.lt_ge_cases k (String.length seq)) as [Hk|Hk]; [left|now right].
  unfold iat, seq_index_of, array. cbn [idx1 at1].
  assert (Hlen : length (list_ascii_of_string seq) = String.length seq).
  { clear. induction seq; simpl; [reflexivity|now f_equal]. }
  rewrite (nth_indep _ 0%Z (find AA "Y"%char))
    by (rewrite length_map, Hlen; exact Hk).
  apply map_nth.
Qed.

Lemma chars_length (seq : string) :
  length (list_ascii_of_string seq) = String.length seq.
Proof. induction seq; simpl; [reflexivity|now f_equal]. Qed.

Lemma aa_freq_entry (seq : string) (i : nat) :
  at1 (compute_aa_freq (seq_index_of seq)) i = INR (occurrences seq i).
Proof.
  unfold compute_aa_freq, occurrences. cbn [at1]. rewrite seq_index_len.
  rewrite <- (big_sum_count _ _ "Y"%char), chars_length.
  apply big_sum_ext. intros k Hk.
  destruct (seq_index_nth seq k) as [->|]; [reflexivity|lia].
Qed.

Lemma aa_freq_sum (seq : string) :
  big_sum 21 (at1 (compute_aa_freq (seq_index_of seq)))
  = INR (known_letters seq).
Proof.
  unfold compute_aa_freq, known_letters. cbn [at1].
  rewrite big_sum_swap, seq_index_len.
  rewrite <- (big_sum_count _ _ "Y"%char), chars_length.
  apply big_sum_ext. intros k Hk. rewrite sum_indicator.
  destruct (seq_index_nth seq k) as [->|]; [|lia].
  unfold in_alphabet.
  pose proof (find_AA_range (nth k (list_ascii_of_string seq) "Y"%char)).
  set (z := find AA (nth k (list_ascii_of_string seq) "Y"%char)) in *.
  f_equal.
  destruct (Z.leb_spec 0 z), (Z.ltb_spec z (Z.of_nat 21)),
    (Z.eqb_spec z (-1)); simpl; try reflexivity; exfalso; lia.
Qed.

(** [compute_aa_freq] counts, under each of the 21 symbols, the letters of
    the sequence that are that symbol; a letter outside the alphabet is
    counted under no symbol (not under "Y" either), so the counts add up to
    the number of letters that are in the alphabet. *)
Theorem aa_freq_counts_known_letters (seq : string) :
  let aa_freq := compute_aa_freq (seq_index_of seq) in
  len1 aa_freq = 21%nat
  /\ (forall i, at1 aa_freq i = INR (occurrences seq i))
  /\ big_sum 21 (at1 aa_freq) = INR (known_letters seq)
  /\ (known_letters seq <= String.length seq)%nat.
Proof.
  intros aa_freq. split; [reflexivity|]. split; [apply aa_freq_entry|].
  split; [apply aa_freq_sum|].
  unfold known_letters. rewrite <- chars_length. apply filter_length_le.
Qed.

(** The composition of a sequence with at least one letter of the alphabet
    is a weight vector the frustration index accepts: with it, every entry
    is (native - mean) / std under these weights. *)
Theorem frustration_with_sequence_composition (seq : string)
    (decoy_energy : arr2 R) (native_energy : R) :
  cols2 decoy_energy = 21%nat ->
  (0 < known_letters seq)%nat ->
  let aa_freq := compute_aa_freq (seq_index_of seq) in
  exists F,
    compute_singleresidue_frustration decoy_energy native_energy
      (Some aa_freq) = inr F
    /\ len1 F = rows2 decoy_energy
    /\ forall i, (i < rows2 decoy_energy)%nat ->
         at1 F i
         = divide (native_energy - mean_w (at1 aa_freq) (at2 decoy_energy i))
                  (Fin (std_w (at1 aa_freq) (at2 decoy_energy i))).
Proof.
  intros Hc Hk aa_freq.
  apply (frustration_weighted decoy_energy native_energy aa_freq Hc).
  - reflexivity.
  - intros a _. unfold aa_freq. rewrite aa_freq_entry. apply pos_INR.
  - unfold aa_freq. rewrite aa_freq_sum. apply lt_0_INR, Hk.
Qed.

Lemma frustration_with_sequence_composition_witness :
  exists F,
    compute_singleresidue_frustration spike_row 5
      (Some (compute_aa_freq (seq_index_of "AXC"))) = inr F
    /\ len1 F = rows2 spike_row
    /\ forall i, (i < rows2 spike_row)%nat ->
         at1 F i
         = divide (5 - mean_w (at1 (compute_aa_freq (seq_index_of "AXC")))
                              (at2 spike_row i))
                  (Fin (std_w (at1 (compute_aa_freq (seq_index_of "AXC")))
                              (at2 spike_row i))).
Proof.
  apply (frustration_with_sequence_composition "AXC" spike_row 5).
  - reflexivity.
  - vm_compute. lia.
Defined.

Example aa_freq_of_AXC :
  occurrences "AXC" 1 = 1%nat /\ occurrences "AXC" 2 = 1%nat
  /\ occurrences "AXC" 20 = 0%nat /\ known_letters "AXC" = 2%nat.
Proof. repeat split. Qed.

(** ** Decoys as mutated sequences *)

Lemma find_letter (a : nat) :
  (a < 21)%nat -> find AA (letter a) = Z.of_nat a.
Proof.
  intros Ha. do 21 (destruct a as [|a]; [reflexivity|]). lia.
Qed.

Lemma mutate_length (seq : string) (p : nat) (c : ascii) :
  String.length (mutate seq p c) = String.length seq.
Proof.
  revert p. induction seq as [|x s IH]; intros p; [reflexivity|].
  destruct p; simpl; [reflexivity|]. now rewrite IH.
Qed.

Lemma mutate_nonempty (seq : string) (p : nat) (c : ascii) :
  seq <> EmptyString -> mutate seq p c <> EmptyString.
Proof. destruct seq; [congruence|]. destruct p; discriminate. Qed.

Lemma sym_mutate (seq : string) (p k : nat) (c : ascii) :
  (k < String.length seq)%nat ->
  sym (mutate seq p c) k
  = if (k =? p)%nat then wrap 21 (find AA c) else sym seq k.
Proof.
  unfold sym, iat, seq_index_of, array. cbn [idx1 at1].
  revert p k. induction seq as [|x s IH]; intros p k Hk; [simpl in Hk; lia|].
  destruct p as [|p], k as [|k];
    cbn [mutate list_ascii_of_string map nth Nat.eqb]; try reflexivity.
  apply IH. simpl in Hk. lia.
Qed.

Lemma mutant_of_mutate (seq : string) (p a k : nat) :
  (a < 21)%nat -> (k < String.length seq)%nat ->
  sym (mutate seq p (letter a)) k = mutant seq p a k.
Proof.
  intros Ha Hk. rewrite sym_mutate by exact Hk. unfold mutant.
  destruct (k =? p)%nat; [|reflexivity].
  rewrite find_letter by exact Ha. apply wrap_of_nat.
Qed.

Lemma mutant_after_mutate (seq : string) (p a k : nat) (c : ascii) :
  (k < String.length seq)%nat ->
  mutant (mutate seq p c) p a k = mutant seq p a k.
Proof.
  intros Hk. unfold mutant. rewrite sym_mutate by exact Hk.
  destruct (k =? p)%nat; reflexivity.
Qed.

(** [decoy_energy[p, a]] is the native energy of the sequence with the
    letter of the symbol [a] at position [p], for a symmetric mask. *)
Theorem decoy_energy_is_native_energy_of_mutant (seq : string)
    (m : PottsModel) (D : arr2 R) (dc : option R) (sc : option Z)
    (p a : nat) :
  seq <> EmptyString ->
  well_formed (String.length seq) m ->
  distance_ok (String.length seq) D dc ->
  (forall i j, (i < String.length seq)%nat -> (j < String.length seq)%nat ->
     contact D dc sc i j = contact D dc sc j i) ->
  (p < String.length seq)%nat -> (a < 21)%nat ->
  exists decoy_energy e,
    compute_singleresidue_decoy_energy seq m D dc sc = inr decoy_energy
    /\ dca_frustratometer.compute_native_energy
         (mutate seq p (letter a)) m D dc sc = inr e
    /\ at2 decoy_energy p a = e.
Proof.
  intros Hne Hwf HD Hsym Hp Ha.
  destruct (interaction_mask_spec _ D dc sc HD) as (mask & Hm & _ & _ & He).
  destruct (decoy_energy_value seq m D dc sc mask Hne Hwf Hm)
    as (E & HE & _ & _ & Hval).
  pose proof (mutate_length seq p (letter a)) as Hlen.
  exists E. eexists. split; [exact HE|]. split.
  { apply (native_energy_value _ m (String.length seq) D dc sc mask).
    - apply mutate_nonempty, Hne.
    - exact Hwf.
    - rewrite Hlen. apply Nat.le_refl.
    - rewrite Hlen. exact Hm. }
  rewrite (Hval p a Hp Ha), Hlen. f_equal.
  - apply big_sum_ext. intros k Hk. now rewrite mutant_of_mutate.
  - f_equal. rewrite big_sum_swap. apply big_sum_ext. intros q Hq.
    apply big_sum_ext. intros k Hk. rewrite !mutant_of_mutate by assumption.
    rewrite (He k q Hk Hq), (He q k Hq Hk), (Hsym k q Hk Hq). reflexivity.
Qed.

Lemma decoy_energy_is_native_energy_of_mutant_witness :
  exists decoy_energy e,
    compute_singleresidue_decoy_energy "AC" toy_model toy_distances
                                       None None = inr decoy_energy
    /\ dca_frustratometer.compute_native_energy
         "AW" toy_model toy_distances None None = inr e
    /\ at2 decoy_energy 1 19 = e.
Proof.
  apply (decoy_energy_is_native_energy_of_mutant "AC" toy_model
           toy_distances None None 1 19).
  - discriminate.
  - repeat split.
  - left. reflexivity.
  - intros i j _ _. reflexivity.
  - simpl. lia.
  - lia.
Defined.

(** Row [p] of the decoy table does not depend on the letter the sequence
    has at position [p]: replacing that letter leaves the row as it is. *)
Theorem decoy_row_ignores_own_letter (seq : string) (m : PottsModel)
    (D : arr2 R) (dc : option R) (sc : option Z) (p a : nat) (c : ascii) :
  seq <> EmptyString ->
  well_formed (String.length seq) m ->
  distance_ok (String.length seq) D dc ->
  (p < String.length seq)%nat -> (a < 21)%nat ->
  exists E E',
    compute_singleresidue_decoy_energy seq m D dc sc = inr E
    /\ compute_singleresidue_decoy_energy (mutate seq p c) m D dc sc
       = inr E'
    /\ at2 E' p a = at2 E p a.
Proof.
  intros Hne Hwf HD Hp Ha.
  destruct (interaction_mask_spec _ D dc sc HD) as (mask & Hm & _).
  pose proof (mutate_length seq p c) as Hlen.
  destruct (decoy_energy_value seq m D dc sc mask Hne Hwf Hm)
    as (E & HE & _ & _ & Hval).
  destruct (decoy_energy_value (mutate seq p c) m D dc sc mask)
    as (E' & HE' & _ & _ & Hval').
  - apply mutate_nonempty, Hne.
  - rewrite Hlen. exact Hwf.
  - rewrite Hlen. exact Hm.
  - exists E, E'. split; [exact HE|]. split; [exact HE'|].
    rewrite (Hval p a Hp Ha), (Hval' p a) by (rewrite ?Hlen; assumption).
    rewrite Hlen. f_equal.
    + apply big_sum_ext. intros k Hk. now rewrite mutant_after_mutate.
    + f_equal. apply big_sum_ext. intros k Hk. apply big_sum_ext.
      intros q Hq. now rewrite !mutant_after_mutate.
Qed.

Lemma decoy_row_ignores_own_letter_witness :
  exists E E',
    compute_singleresidue_decoy_energy "AC" toy_model toy_distances
                                       None None = inr E
    /\ compute_singleresidue_decoy_energy "AW" toy_model toy_distances
                                          None None = inr E'
    /\ at2 E' 1 3 = at2 E 1 3.
Proof.
  apply (decoy_row_ignores_own_letter "AC" toy_model toy_distances None None
           1 3 "W").
  - discriminate.
  - repeat split.
  - left. reflexivity.
  - simpl. lia.
  - lia.
Defined.

(** ** The empty sequence *)

(** The index array of an empty sequence is an array of floats, and the
    first index operation of either energy function refuses it, whatever
    the model, the distance matrix and the cutoffs are. *)
Theorem empty_sequence_raises_index_error (m : PottsModel) (D : arr2 R)
    (dc : option R) (sc : option Z) :
  dca_frustratometer.compute_native_energy EmptyString m D dc sc
  = inl IndexError
  /\ compute_singleresidue_decoy_energy EmptyString m D dc sc
     = inl IndexError.
Proof.
  split; [reflexivity|].
  unfold compute_singleresidue_decoy_energy, take2_3. cbn [meshgrid].
  destruct (set_mutation_fold (ilen (seq_index_of EmptyString)) 21
              (repeat_seq_index (seq_index_of EmptyString)
                 (ilen (seq_index_of EmptyString)))) as (Hd & _).
  unfold create_decoys. rewrite Hd. reflexivity.
Qed.

(** ** More on the mask *)

Lemma big_sum_all_zero (n : nat) (f : nat -> R) :
  (forall i, (i < n)%nat -> f i = 0) -> big_sum n f = 0.
Proof.
  intros Hf. rewrite (big_sum_ext n f (fun _ => 0)) by exact Hf.
  apply big_sum_zero.
Qed.

(** A sequence-separation cutoff of L - 1 or more leaves no pair in the
    mask, and the native energy is the sum of the fields alone. *)
Theorem large_separation_cutoff_leaves_fields (seq : string)
    (m : PottsModel) (D : arr2 R) (dc : option R) (c : Z) :
  seq <> EmptyString ->
  well_formed (String.length seq) m ->
  distance_ok (String.length seq) D dc ->
  (Z.of_nat (String.length seq) - 1 <= c)%Z ->
  exists e,
    dca_frustratometer.compute_native_energy seq m D dc (Some c) = inr e
    /\ e = big_sum (String.length seq) (fun i => - at2 (h m) i (sym seq i)).
Proof.
  intros Hne Hwf HD Hc.
  destruct (interaction_mask_spec _ D dc (Some c) HD)
    as (mask & Hm & _ & _ & He).
  eexists. split.
  { apply (native_energy_value seq m _ D dc (Some c) mask Hne Hwf
             (Nat.le_refl _) Hm). }
  assert (H0 : big_sum (String.length seq) (fun i =>
                 big_sum (String.length seq) (fun j =>
                   - at4 (J m) i j (sym seq i) (sym seq j) * at2 mask i j))
               = 0).
  { apply big_sum_all_zero. intros i Hi. apply big_sum_all_zero.
    intros j Hj. rewrite (He i j Hi Hj). unfold contact.
    destruct (Z.ltb_spec c (Z.abs (Z.of_nat i - Z.of_nat j))); [lia|].
    simpl. lra. }
  rewrite H0. lra.
Qed.

Lemma large_separation_cutoff_leaves_fields_witness :
  exists e,
    dca_frustratometer.compute_native_energy
      "AC" toy_model toy_distances None (Some 1%Z) = inr e
    /\ e = big_sum (String.length "AC")
                   (fun i => - at2 (h toy_model) i (sym "AC" i)).
Proof.
  apply (large_separation_cutoff_leaves_fields "AC" toy_model toy_distances
           None 1%Z).
  - discriminate.
  - repeat split.
  - left. reflexivity.
  - simpl. lia.
Defined.

Lemma of_bool_01 (b : bool) : of_bool b = 0 \/ of_bool b = 1.
Proof. destruct b; [right|left]; reflexivity. Qed.

Lemma of_bool_le (a b : bool) :
  (a = true -> b = true) -> of_bool a <= of_bool b.
Proof.
  destruct a, b; simpl; intros Hab; try lra;
    discriminate (Hab eq_refl).
Qed.

(** Every entry of the mask is 0 or 1, and tightening a cutoff (a smaller
    distance cutoff, a larger separation cutoff) only removes pairs. *)
Theorem tighter_cutoffs_remove_contacts (L : nat) (D : arr2 R)
    (c_tight c_loose : R) (s_tight s_loose : Z) :
  rows2 D = L -> cols2 D = L ->
  c_tight <= c_loose -> (s_loose <= s_tight)%Z ->
  exists tight loose,
    interaction_mask L D (Some c_tight) (Some s_tight) = inr tight
    /\ interaction_mask L D (Some c_loose) (Some s_loose) = inr loose
    /\ forall i j, (i < L)%nat -> (j < L)%nat ->
         (at2 tight i j = 0 \/ at2 tight i j = 1)
         /\ at2 tight i j <= at2 loose i j.
Proof.
  intros Hr Hc Hcc Hss.
  destruct (interaction_mask_spec L D (Some c_tight) (Some s_tight))
    as (tight & Ht & _ & _ & Het); [right; split; assumption|].
  destruct (interaction_mask_spec L D (Some c_loose) (Some s_loose))
    as (loose & Hl & _ & _ & Hel); [right; split; assumption|].
  exists tight, loose. split; [exact Ht|]. split; [exact Hl|].
  intros i j Hi Hj. rewrite (Het i j Hi Hj), (Hel i j Hi Hj).
  split; [apply of_bool_01|]. apply of_bool_le. unfold contact.
  rewrite !andb_true_iff. intros [Hs Hd]. split.
  - apply Z.ltb_lt in Hs. apply Z.ltb_lt. lia.
  - destruct (Rle_dec (at2 D i j) c_tight) as [Hle|]; [|discriminate].
    destruct (Rle_dec (at2 D i j) c_loose) as [|Hn]; [reflexivity|lra].
Qed.

Lemma tighter_cutoffs_remove_contacts_witness :
  exists tight loose,
    interaction_mask 2 toy_distances (Some 1) (Some 1%Z) = inr tight
    /\ interaction_mask 2 toy_distances (Some 6) (Some 0%Z) = inr loose
    /\ forall i j, (i < 2)%nat -> (j < 2)%nat ->
         (at2 tight i j = 0 \/ at2 tight i j = 1)
         /\ at2 tight i j <= at2 loose i j.
Proof.
  apply (tighter_cutoffs_remove_contacts 2 toy_distances 1 6 1%Z 0%Z).
  - reflexivity.
  - reflexivity.
  - lra.
  - lia.
Defined.

Lemma interaction_mask_broadcast (L : nat) (D : arr2 R) (c : R)
    (sc : option Z) :
  broadcastable L D ->
  exists mask, interaction_mask L D (Some c) sc = inr mask.
Proof.
  intros [Hr Hc]. unfold interaction_mask.
  assert (Hok : forall mask : arr2 R, rows2 mask = L -> cols2 mask = L ->
            exists mask', imul2 mask (le_scalar D c) = inr mask').
  { intros mask Hmr Hmc. unfold imul2. cbn [le_scalar rows2 cols2].
    rewrite Hmr, Hmc.
    assert (Hb : ((rows2 D =? L)%nat || (rows2 D =? 1)%nat)
                 && ((cols2 D =? L)%nat || (cols2 D =? 1)%nat) = true).
    { apply andb_true_iff. split; apply orb_true_iff.
      - destruct Hr as [->| ->]; rewrite Nat.eqb_refl; auto.
      - destruct Hc as [->| ->]; rewrite Nat.eqb_refl; auto. }
    rewrite Hb. eexists. reflexivity. }
  destruct sc as [s|]; cbn [bind ret].
  - unfold imul2 at 1. cbn [gt_scalar sequence_distance ones rows2 cols2].
    rewrite !Nat.eqb_refl. cbn [orb andb bind ret].
    destruct (Hok (Arr2 L L (fun i j =>
                at2 (ones L L) i j
                * of_bool (at2 (gt_scalar (sequence_distance L) (IZR s))
                             (bidx L i) (bidx L j)))) eq_refl eq_refl)
      as (mask' & Hm').
    unfold ones, sequence_distance, gt_scalar in Hm'. cbn [at2] in Hm'.
    unfold ones, sequence_distance, gt_scalar. cbn [at2].
    rewrite Hm'. eexists. reflexivity.
  - destruct (Hok (ones L L) eq_refl eq_refl) as (mask' & Hm').
    rewrite Hm'. eexists. reflexivity.
Qed.

Lemma interaction_mask_no_broadcast (L : nat) (D : arr2 R) (c : R)
    (sc : option Z) :
  ~ broadcastable L D ->
  interaction_mask L D (Some c) sc = inl ValueError.
Proof.
  intros Hn. unfold interaction_mask.
  assert (Hbad : forall mask : arr2 R, rows2 mask = L -> cols2 mask = L ->
            imul2 mask (le_scalar D c) = inl ValueError).
  { intros mask Hmr Hmc. unfold imul2. cbn [le_scalar rows2 cols2].
    rewrite Hmr, Hmc.
    destruct (((rows2 D =? L)%nat || (rows2 D =? 1)%nat)
              && ((cols2 D =? L)%nat || (cols2 D =? 1)%nat)) eqn:Hb;
      [|reflexivity].
    exfalso. apply Hn. apply andb_true_iff in Hb as [H1 H2].
    apply orb_true_iff in H1, H2. split.
    - destruct H1 as [H1|H1]; apply Nat.eqb_eq in H1; auto.
    - destruct H2 as [H2|H2]; apply Nat.eqb_eq in H2; auto. }
  destruct sc as [s|]; cbn [bind ret].
  - unfold imul2 at 1. cbn [gt_scalar sequence_distance ones rows2 cols2].
    rewrite !Nat.eqb_refl. cbn [orb andb bind ret].
    now rewrite Hbad.
  - now rewrite Hbad.
Qed.

(** Under a distance cutoff the distance matrix has to broadcast to L x L
    (each of its sides L or 1): then an energy is returned, and otherwise
    the product with the mask raises [ValueError]. *)
Theorem distance_matrix_shape_decides (seq : string) (m : PottsModel)
    (D : arr2 R) (c : R) (sc : option Z) :
  seq <> EmptyString ->
  well_formed (String.length seq) m ->
  (broadcastable (String.length seq) D ->
     exists e,
       dca_frustratometer.compute_native_energy seq m D (Some c) sc = inr e)
  /\ (~ broadcastable (String.length seq) D ->
        dca_frustratometer.compute_native_energy seq m D (Some c) sc
        = inl ValueError).
Proof.
  intros Hne Hwf.
  pose proof (native_energy_after_indexing seq m _ D (Some c) sc Hne Hwf
                (Nat.le_refl _)) as Hrun.
  cbv zeta in Hrun. split; intros HD.
  - destruct (interaction_mask_broadcast _ D c sc HD) as (mask & Hm).
    pose proof (interaction_mask_shape _ _ _ _ _ Hm) as [Hmr Hmc].
    rewrite Hrun, Hm. cbn [bind ret]. unfold mul2. cbn [rows2 cols2].
    rewrite Hmr, Hmc, !bdim_same. cbn [bind ret]. eexists. reflexivity.
  - rewrite Hrun, (interaction_mask_no_broadcast _ D c sc HD). reflexivity.
Qed.

Lemma distance_matrix_shape_decides_witness :
  (broadcastable (String.length "AC") (Arr2 1 1 (fun _ _ => 3)) ->
     exists e,
       dca_frustratometer.compute_native_energy
         "AC" toy_model (Arr2 1 1 (fun _ _ => 3)) (Some 4) None = inr e)
  /\ (~ broadcastable (String.length "AC") (Arr2 1 1 (fun _ _ => 3)) ->
        dca_frustratometer.compute_native_energy
          "AC" toy_model (Arr2 1 1 (fun _ _ => 3)) (Some 4) None
        = inl ValueError).
Proof.
  apply (distance_matrix_shape_decides "AC" toy_model
           (Arr2 1 1 (fun _ _ => 3)) 4 None).
  - discriminate.
  - repeat split.
Defined.

(** ** The class: what the caches keep *)

Lemma compute_fluctuation_kind `{frustration.api} (kind sequence : string)
    (potts_model : PottsModel) (mask : arr2 R) :
  (is_kind kind = false ->
     Frustratometer.compute_fluctuation kind sequence potts_model mask
     = inl (Exception "Wrong kind of decoy generation selected"))
  /\ (forall f,
        Frustratometer.compute_fluctuation kind sequence potts_model mask
        = inr f -> is_kind kind = true /\ rank_fits kind f).
Proof.
  unfold Frustratometer.compute_fluctuation, is_kind. cbn [existsb].
  destruct (String.eqb_spec kind "singleresidue") as [->|Hn1].
  { split; [discriminate|]. intros f Hf.
    destruct (compute_singleresidue_decoy_energy_fluctuation _ _ _);
      [discriminate|]. inversion Hf. split; reflexivity. }
  destruct (String.eqb_spec kind "mutational") as [->|Hn2].
  { split; [discriminate|]. intros f Hf.
    destruct (compute_mutational_decoy_energy_fluctuation _ _ _);
      [discriminate|]. inversion Hf. split; [reflexivity|assumption]. }
  destruct (String.eqb_spec kind "configurational") as [->|Hn3].
  { split; [discriminate|]. intros f Hf.
    destruct (compute_configurational_decoy_energy_fluctuation _ _ _);
      [discriminate|]. inversion Hf. split; [reflexivity|assumption]. }
  destruct (String.eqb_spec kind "contact") as [->|Hn4].
  { split; [discriminate|]. intros f Hf.
    destruct (compute_contact_decoy_energy_fluctuation _ _ _);
      [discriminate|]. inversion Hf. split; [reflexivity|assumption]. }
  split; [reflexivity|]. intros f Hf. discriminate.
Qed.

(** On an object whose cache holds the four kinds only, a call of
    [decoy_fluctuation] with any other kind raises the exception "Wrong kind
    of decoy generation selected"; and a call that returns leaves the cache
    in that state, with the returned tensor stored under its kind, so that
    the next call without a sequence returns the same tensor. *)
Theorem decoy_fluctuation_keeps_cache `{frustration.api}
    (self : Frustratometer.t) (sequence : option string) (kind : string)
    (mask : option (arr2 R)) :
  cache_ok self ->
  (is_kind kind = false ->
     Frustratometer.decoy_fluctuation self sequence kind mask
     = inl (Exception "Wrong kind of decoy generation selected"))
  /\ (forall self' f,
        Frustratometer.decoy_fluctuation self sequence kind mask
        = inr (self', f) ->
        cache_ok self'
        /\ Frustratometer._decoy_fluctuation self' !! kind = Some f
        /\ forall mask',
             Frustratometer.decoy_fluctuation self' None kind mask'
             = inr (self', f)).
Proof.
  intros Hok. unfold Frustratometer.decoy_fluctuation.
  set (cached := match sequence with
                 | Some _ => None
                 | None => Frustratometer._decoy_fluctuation self !! kind
                 end).
  assert (Hcached : forall f, cached = Some f ->
            Frustratometer._decoy_fluctuation self !! kind = Some f).
  { intros f. unfold cached. destruct sequence; [discriminate|auto]. }
  destruct cached as [f0|] eqn:Hc.
  - pose proof (Hcached f0 eq_refl) as Hf0. destruct (Hok kind f0 Hf0) as [Hk _].
    split; [intros Hbad; congruence|].
    intros self' f Hr. inversion Hr; subst self' f.
    split; [exact Hok|]. split; [exact Hf0|].
    intros mask'. now rewrite Hf0.
  - set (seq' := default (Frustratometer.sequence self) sequence).
    set (mask0 := default (Frustratometer.mask self) mask).
    destruct (compute_fluctuation_kind kind seq'
                (Frustratometer.potts_model self) mask0) as [Hbad Hgood].
    split.
    + intros Hk. rewrite (Hbad Hk). reflexivity.
    + intros self' f Hr.
      destruct (Frustratometer.compute_fluctuation kind seq' _ mask0)
        as [e|f'] eqn:Hcomp; [discriminate|].
      cbn [bind ret] in Hr. inversion Hr; subst self' f.
      destruct (Hgood f' eq_refl) as [Hk Hrank].
      assert (Hstored : Frustratometer._decoy_fluctuation
                          (Frustratometer.set_decoy_fluctuation self kind f')
                          !! kind = Some f')
        by apply lookup_insert_eq.
      split; [|split; [exact Hstored|]].
      * intros kind2 f2 Hl.
        cbn [Frustratometer.set_decoy_fluctuation
             Frustratometer._decoy_fluctuation] in Hl.
        apply lookup_insert_Some in Hl as [[<- <-]|[_ Hl]];
          [split; assumption | apply (Hok kind2 f2 Hl)].
      * intros mask'. now rewrite Hstored.
Qed.

Lemma decoy_fluctuation_keeps_cache_witness :
  let api := frustration.spec_api no_pair_kind no_pair_kind no_pair_kind in
  (is_kind "singleresidue" = false ->
     Frustratometer.decoy_fluctuation ladder_object None "singleresidue" None
     = inl (Exception "Wrong kind of decoy generation selected"))
  /\ (forall self' f,
        Frustratometer.decoy_fluctuation ladder_object None
          "singleresidue" None = inr (self', f) ->
        cache_ok self'
        /\ Frustratometer._decoy_fluctuation self' !! "singleresidue"
           = Some f
        /\ forall mask',
             Frustratometer.decoy_fluctuation self' None "singleresidue"
               mask' = inr (self', f)).
Proof.
  intros api.
  apply (decoy_fluctuation_keeps_cache ladder_object None "singleresidue"
           None).
  intros kind f Hl. unfold ladder_object, Frustratometer.init in Hl.
  cbn [Frustratometer._decoy_fluctuation] in Hl.
  rewrite lookup_empty in Hl. discriminate Hl.
Defined.

(** [native_energy()] can be repeated: when a call without a sequence
    returns an energy, the same call on the object it leaves returns that
    energy again and leaves the object as it is. *)
Theorem native_energy_repeatable `{frustration.api}
    (self self' : Frustratometer.t) (e : R)
    (ignore_couplings_of_gaps ignore_fields_of_gaps : bool) :
  Frustratometer.native_energy self None ignore_couplings_of_gaps
    ignore_fields_of_gaps = inr (self', e) ->
  Frustratometer.native_energy self' None ignore_couplings_of_gaps
    ignore_fields_of_gaps = inr (self', e).
Proof.
  unfold Frustratometer.native_energy at 1.
  assert (Hfresh : forall e',
            frustration.compute_native_energy (Frustratometer.sequence self)
              (Frustratometer.potts_model self) (Frustratometer.mask self)
              ignore_couplings_of_gaps ignore_fields_of_gaps = inr e' ->
            Frustratometer.native_energy
              (Frustratometer.set_native_energy self e') None
              ignore_couplings_of_gaps ignore_fields_of_gaps
            = inr (Frustratometer.set_native_energy self e', e')).
  { intros e' He'. unfold Frustratometer.native_energy.
    cbn [Frustratometer.set_native_energy Frustratometer._native_energy
         Frustratometer.sequence Frustratometer.potts_model
         Frustratometer.mask].
    destruct (Frustratometer.not_ (Some e')); [|reflexivity].
    rewrite He'. reflexivity. }
  destruct (Frustratometer._native_energy self) as [e0|] eqn:Hs.
  - destruct (Frustratometer.not_ (Some e0)) eqn:Hn.
    + destruct (frustration.compute_native_energy _ _ _ _ _) as [err|e']
        eqn:He'; [discriminate|].
      cbn [bind ret]. intros Hr. inversion Hr; subst self' e.
      apply Hfresh; reflexivity.
    + intros Hr. inversion Hr; subst self' e.
      unfold Frustratometer.native_energy. rewrite Hs, Hn. reflexivity.
  - destruct (frustration.compute_native_energy _ _ _ _ _) as [err|e']
      eqn:He'; [discriminate|].
    cbn [bind ret]. intros Hr. inversion Hr; subst self' e.
    apply Hfresh; reflexivity.
Qed.

Lemma native_energy_repeatable_witness :
  let api := frustration.spec_api no_pair_kind no_pair_kind no_pair_kind in
  exists self' e,
    Frustratometer.native_energy gap_object None false false
    = inr (self', e)
    /\ Frustratometer.native_energy self' None false false = inr (self', e).
Proof.
  intros api. eexists _, _.
  assert (Hfirst : Frustratometer.native_energy gap_object None false false
                   = inr (Frustratometer.set_native_energy gap_object
                            (big_sum 2 (frustration.field_term "-A" gap_model
                                          false)
                             + big_sum 2 (fun i =>
                                 big_sum 2 (frustration.coupling_term "-A"
                                   gap_model (Arr2 2 2 (fun _ _ => 0))
                                   false i)) / 2),
                          big_sum 2 (frustration.field_term "-A" gap_model
                                       false)
                          + big_sum 2 (fun i =>
                              big_sum 2 (frustration.coupling_term "-A"
                                gap_model (Arr2 2 2 (fun _ _ => 0))
                                false i)) / 2))
    by reflexivity.
  split; [exact Hfirst|].
  exact (native_energy_repeatable gap_object _ _ false false Hfirst).
Defined.

(** ** Reading the sequence of a structure *)

Import dca_frustratometer_rest.

Lemma Letter_code_amino_acid (name : string) (c : ascii) :
  Letter_code !! name = Some c -> is_amino_acid c.
Proof.
  intros Hl. unfold Letter_code in Hl.
  apply elem_of_list_to_map_2 in Hl.
  repeat (apply elem_of_cons in Hl as [Hl|Hl];
          [inversion Hl; subst; unfold is_amino_acid; vm_compute;
           split; discriminate|]).
  apply elem_of_nil in Hl. contradiction.
Qed.

Lemma letters_of_ok (residues : list Residue) (letters : list ascii) :
  letters_of residues = inr letters ->
  length letters = length residues /\ Forall is_amino_acid letters.
Proof.
  revert letters. induction residues as [|r rest IH]; intros letters Hl.
  - inversion Hl. split; [reflexivity|constructor].
  - cbn [letters_of] in Hl.
    destruct (Letter_code !! resname r) as [c|] eqn:Hc; [|discriminate].
    destruct (letters_of rest) as [e|cs]; [discriminate|].
    inversion Hl; subst letters. destruct (IH cs eq_refl) as [Hlen Hall].
    split; [simpl; now rewrite Hlen|].
    constructor; [apply (Letter_code_amino_acid _ _ Hc) | exact Hall].
Qed.

Lemma letters_of_error (residues : list Residue) (name : string) :
  letters_of residues = inl (key_error name) ->
  exists r, In r residues /\ resname r = name
            /\ Letter_code !! name = None.
Proof.
  induction residues as [|r rest IH]; intros Hl; [discriminate|].
  cbn [letters_of] in Hl.
  destruct (Letter_code !! resname r) as [c|] eqn:Hc.
  - destruct (letters_of rest) as [e|cs]; [|discriminate].
    inversion Hl; subst e. destruct (IH eq_refl) as (r' & Hin & Hn & Hnone).
    exists r'. split; [right; exact Hin|]. split; assumption.
  - inversion Hl; subst name. exists r.
    split; [left; reflexivity|]. split; [reflexivity|exact Hc].
Qed.

(** A sequence [get_protein_sequence_from_pdb] returns has one letter for
    each residue it keeps, and every letter is one of the 20 amino-acid
    letters of the alphabet: no gap, and no letter the energies would read
    as "Y" by accident.  When it raises instead, the [KeyError] names a
    kept residue whose name is not one of the 20. *)
Theorem sequence_from_pdb_has_amino_acids (structure : list Residue)
    (chain : string) :
  (forall sequence,
     get_protein_sequence_from_pdb structure chain = inr sequence ->
     String.length sequence
     = length (List.filter (selected chain) structure)
     /\ Forall is_amino_acid (list_ascii_of_string sequence)
     /\ read_as_Y sequence = sequence)
  /\ (forall name,
        get_protein_sequence_from_pdb structure chain
        = inl (key_error name) ->
        exists r, In r structure /\ selected chain r = true
                  /\ resname r = name /\ Letter_code !! name = None).
Proof.
  unfold get_protein_sequence_from_pdb. split.
  - intros sequence Hs.
    destruct (letters_of _) as [e|letters] eqn:Hl; [discriminate|].
    inversion Hs; subst sequence.
    destruct (letters_of_ok _ _ Hl) as [Hlen Hall].
    rewrite <- chars_length, list_ascii_of_string_of_list_ascii.
    split; [exact Hlen|]. split; [exact Hall|].
    clear Hl Hlen Hs. induction Hall as [|c cs Hc _ IH]; [reflexivity|].
    cbn [string_of_list_ascii read_as_Y]. rewrite IH.
    unfold is_amino_acid in Hc.
    destruct (Z.eqb_spec (find AA c) (-1)); [lia|reflexivity].
  - intros name Hs.
    destruct (letters_of _) as [e|letters] eqn:Hl; [|discriminate].
    inversion Hs; subst e.
    destruct (letters_of_error _ _ Hl) as (r & Hin & Hn & Hnone).
    apply filter_In in Hin as [Hin Hsel].
    exists r. repeat split; assumption.
Qed.

Example sequence_of_three_residues :
  get_protein_sequence_from_pdb
    [ {| resname := "ALA"; has_CA := true; parent_id := "A" |};
      {| resname := "HOH"; has_CA := false; parent_id := "A" |};
      {| resname := "TRP"; has_CA := true; parent_id := "B" |};
      {| resname := "CYS"; has_CA := true; parent_id := "A" |} ] "A"
  = inr "AC"%string
  /\ get_protein_sequence_from_pdb
       [ {| resname := "MSE"; has_CA := true; parent_id := "A" |} ] "A"
     = inl (key_error "MSE").
Proof. split; reflexivity. Qed.

(** ** The matrix of minimum distances *)

Lemma combine_app_same {A B : Type} (a1 a2 : list A) (b1 b2 : list B) :
  length a1 = length b1 ->
  combine (a1 ++ a2) (b1 ++ b2) = combine a1 b1 ++ combine a2 b2.
Proof.
  revert b1. induction a1 as [|x a1 IH]; intros [|y b1] Hl;
    try discriminate; [reflexivity|].
  simpl. f_equal. apply IH. now inversion Hl.
Qed.

Ltac split_nat_tests :=
  repeat match goal with
    | |- context [Nat.eqb ?a ?b] => destruct (Nat.eqb_spec a b)
    | |- context [Nat.leb ?a ?b] => destruct (Nat.leb_spec a b)
    | |- context [Nat.ltb ?a ?b] => destruct (Nat.ltb_spec a b)
    end.

(** Settle the tests the hypotheses decide. *)
Ltac decide_nat_test :=
  match goal with
  | |- context [Nat.eqb ?a ?b] =>
      first [ rewrite (proj2 (Nat.eqb_eq a b)) by lia
            | rewrite (proj2 (Nat.eqb_neq a b)) by lia ]
  | |- context [Nat.leb ?a ?b] =>
      first [ rewrite (proj2 (Nat.leb_le a b)) by lia
            | rewrite (proj2 (Nat.leb_gt a b)) by lia ]
  | |- context [Nat.ltb ?a ?b] =>
      first [ rewrite (proj2 (Nat.ltb_lt a b)) by lia
            | rewrite (proj2 (Nat.ltb_ge a b)) by lia ]
  end.

Ltac order_cases p q s bound :=
  destruct (lt_eq_lt_dec p q) as [[?|?]|?];
  destruct (lt_eq_lt_dec p s) as [[?|?]|?];
  destruct (lt_eq_lt_dec q s) as [[?|?]|?];
  try (exfalso; lia);
  destruct (le_lt_dec bound p);
  destruct (le_lt_dec bound q);
  try (exfalso; lia);
  repeat decide_nat_test; cbn [andb].

(** The steps that pair the residue [x] at index [s] with the residues [t]
    at the indices [u], [u + 1], ... *)
Lemma row_of_pairs (block_min : nat -> nat -> R) (x s : nat) (t : list nat) :
  forall (u : nat) (D0 : arr2 R), (s < u)%nat ->
  let D := fold_left (write_pair block_min)
             (combine (map (pair s) (List.seq u (length t)))
                      (map (pair x) t)) D0 in
  rows2 D = rows2 D0 /\ cols2 D = cols2 D0
  /\ forall p q,
       at2 D p q
       = if (p =? s)%nat && (u <=? q)%nat && (q <? u + length t)%nat
         then block_min x (nth (q - u) t 0%nat)
         else if (q =? s)%nat && (u <=? p)%nat && (p <? u + length t)%nat
         then block_min x (nth (p - u) t 0%nat)
         else at2 D0 p q.
Proof.
  induction t as [|y t IH]; intros u D0 Hsu; cbv zeta.
  - simpl. repeat split. intros p q. split_nat_tests; simpl; try reflexivity;
      lia.
  - cbn [length List.seq map combine fold_left].
    destruct (IH (S u) (write_pair block_min D0 (s, u, (x, y))) ltac:(lia))
      as (Hr & Hc & Hv).
    cbv zeta in Hr, Hc, Hv. rewrite Hr, Hc. split; [reflexivity|].
    split; [reflexivity|]. intros p q. rewrite Hv.
    cbn [write_pair assign at2].
    destruct (lt_eq_lt_dec p u) as [[?|?]|?];
      destruct (lt_eq_lt_dec q u) as [[?|?]|?];
      destruct (Nat.eq_dec p s); destruct (Nat.eq_dec q s);
      try (exfalso; lia);
      destruct (le_lt_dec (S u + length t) p);
      destruct (le_lt_dec (S u + length t) q);
      try (exfalso; lia);
      repeat decide_nat_test; cbn [andb]; subst; try reflexivity;
      try (replace (q - u)%nat with (S (q - S u)) by lia; reflexivity);
      try (replace (p - u)%nat with (S (p - S u)) by lia; reflexivity);
      try (rewrite Nat.sub_diag; reflexivity).
Qed.

Lemma all_pairs (block_min : nat -> nat -> R) (l : list nat) :
  forall (s : nat) (D0 : arr2 R),
  let D := fold_left (write_pair block_min)
             (combine (combinations (List.seq s (length l)))
                      (combinations l)) D0 in
  rows2 D = rows2 D0 /\ cols2 D = cols2 D0
  /\ forall p q,
       at2 D p q
       = if (s <=? p)%nat && (p <? q)%nat && (q <? s + length l)%nat
         then block_min (nth (p - s) l 0%nat) (nth (q - s) l 0%nat)
         else if (s <=? q)%nat && (q <? p)%nat && (p <? s + length l)%nat
         then block_min (nth (q - s) l 0%nat) (nth (p - s) l 0%nat)
         else at2 D0 p q.
Proof.
  induction l as [|x t IH]; intros s D0; cbv zeta.
  - simpl. repeat split. intros p q. split_nat_tests; simpl; try reflexivity;
      lia.
  - cbn [length List.seq combinations].
    rewrite combine_app_same by (now rewrite !length_map, length_seq).
    rewrite fold_left_app.
    destruct (row_of_pairs block_min x s t (S s) D0 ltac:(lia))
      as (Hr1 & Hc1 & Hv1).
    cbv zeta in Hr1, Hc1, Hv1.
    set (D1 := fold_left (write_pair block_min)
                 (combine (map (pair s) (List.seq (S s) (length t)))
                          (map (pair x) t)) D0) in *.
    destruct (IH (S s) D1) as (Hr & Hc & Hv).
    cbv zeta in Hr, Hc, Hv. rewrite Hr, Hc, Hr1, Hc1.
    split; [reflexivity|]. split; [reflexivity|].
    intros p q. rewrite Hv, Hv1.
    order_cases p q s (s + S (length t))%nat; subst; try reflexivity;
      repeat match goal with
        | |- context [nth (?a - ?b) (?x :: ?t) ?d] =>
            first [ replace (a - b)%nat with 0%nat by lia
                  | replace (a - b)%nat with (S (a - S b)) by lia ]
        end; cbn [nth]; reflexivity.
Qed.

Lemma minimum_distances_spec (residues : list nat)
    (block_min : nat -> nat -> R) :
  let D := minimum_distances residues block_min in
  rows2 D = length residues /\ cols2 D = length residues
  /\ (forall i j, at2 D i j = at2 D j i)
  /\ (forall i, at2 D i i = 1000)
  /\ (forall i j, (i < j)%nat -> (j < length residues)%nat ->
        at2 D i j = block_min (nth i residues 0%nat) (nth j residues 0%nat)).
Proof.
  unfold minimum_distances.
  destruct (all_pairs block_min residues 0
              (Arr2 (length residues) (length residues) (fun _ _ => 0 + 1000)))
    as (Hr & Hc & Hv).
  cbv zeta in Hr, Hc, Hv. cbv zeta. split; [exact Hr|]. split; [exact Hc|].
  split; [|split].
  - intros i j. rewrite !Hv. cbn [at2].
    split_nat_tests; cbn [andb]; try reflexivity; lia.
  - intros i. rewrite Hv. cbn [at2].
    split_nat_tests; cbn [andb]; try lra; lia.
  - intros i j Hij Hj. rewrite Hv.
    split_nat_tests; cbn [andb]; try lia.
    now rewrite !Nat.sub_0_r.
Qed.

(** The matrix the method 'minimum' returns is square with one row for
    each residue, symmetric, holds the minimum distance of the two residues
    at every entry off the diagonal, and has 1000 on its diagonal: the loop
    writes the pairs of different residues only. *)
Theorem minimum_distance_matrix_shape (ca cb : arr2 R) (residues : list nat)
    (block_min : nat -> nat -> R) :
  exists D,
    get_distance_matrix_from_pdb ca cb residues block_min "minimum" = Some D
    /\ rows2 D = length residues /\ cols2 D = length residues
    /\ (forall i j, at2 D i j = at2 D j i)
    /\ (forall i, at2 D i i = 1000)
    /\ (forall i j, (i < j)%nat -> (j < length residues)%nat ->
          at2 D i j = block_min (nth i residues 0%nat) (nth j residues 0%nat)).
Proof.
  exists (minimum_distances residues block_min).
  split; [reflexivity|]. apply minimum_distances_spec.
Qed.

(** With the matrix of the method 'minimum' and a distance cutoff below
    1000, the mask of the energy functions is symmetric and has a zero
    diagonal, with or without a sequence-separation cutoff. *)
Theorem minimum_distances_give_symmetric_mask (residues : list nat)
    (block_min : nat -> nat -> R) (c : R) (sc : option Z) :
  c < 1000 ->
  let L := length residues in
  exists mask,
    interaction_mask L (minimum_distances residues block_min) (Some c) sc
    = inr mask
    /\ rows2 mask = L /\ cols2 mask = L
    /\ (forall i j, (i < L)%nat -> (j < L)%nat -> at2 mask i j = at2 mask j i)
    /\ (forall i, (i < L)%nat -> at2 mask i i = 0).
Proof.
  intros Hc L.
  destruct (minimum_distances_spec residues block_min)
    as (Hr & Hcol & Hsym & Hdiag & _).
  destruct (interaction_mask_spec L (minimum_distances residues block_min)
              (Some c) sc) as (mask & Hm & Hmr & Hmc & He).
  { right. split; assumption. }
  exists mask. split; [exact Hm|]. split; [exact Hmr|]. split; [exact Hmc|].
  split.
  - intros i j Hi Hj. rewrite !He by assumption. f_equal.
    apply contact_symmetric, Hsym.
  - intros i Hi. rewrite He by assumption. unfold contact.
    rewrite Hdiag. destruct (Rle_dec 1000 c); [lra|].
    now rewrite andb_false_r.
Qed.

Lemma minimum_distances_give_symmetric_mask_witness :
  exists mask,
    interaction_mask 3 (minimum_distances [7; 8; 9]%nat (fun a b => INR (a + b)))
                     (Some 16) None = inr mask
    /\ rows2 mask = 3%nat /\ cols2 mask = 3%nat
    /\ (forall i j, (i < 3)%nat -> (j < 3)%nat -> at2 mask i j = at2 mask j i)
    /\ (forall i, (i < 3)%nat -> at2 mask i i = 0).
Proof.
  apply (minimum_distances_give_symmetric_mask [7; 8; 9]%nat
           (fun a b => INR (a + b)) 16 None).
  lra.
Defined.

Example minimum_distances_of_three :
  let D := minimum_distances [7; 8; 9]%nat (fun a b => INR (a + b)) in
  at2 D 0 1 = 15 /\ at2 D 1 0 = 15 /\ at2 D 1 2 = 17 /\ at2 D 2 2 = 1000.
Proof.
  cbv zeta. repeat split; vm_compute; lra.
Qed.

(** ** The models of pydca *)

Lemma qq_state (a : nat) :
  (a < 21)%nat -> wrap 21 (nth a pydca.qq 0%Z) = state_of a.
Proof.
  intros Ha. do 21 (destruct a as [|a]; [reflexivity|]). lia.
Qed.

Lemma plmdca_spec (m : PottsModel) (L : nat) (n : Z) :
  well_formed L m ->
  exists m',
    pydca.plmdca m n = inr (m', n)
    /\ well_formed L m'
    /\ (forall i a, (a < 21)%nat ->
          at2 (h m') i a = at2 (h m) i (state_of a))
    /\ (forall i j a b, (a < 21)%nat -> (b < 21)%nat ->
          at4 (J m') i j a b = at4 (J m) i j (state_of a) (state_of b)).
Proof.
  intros (Hr & Hc & HJ).
  unfold pydca.plmdca, pydca.take_cols, pydca.take_axis2.
  rewrite Hc, HJ.
  change (forallb (in_bounds 21) pydca.qq) with true. cbn [bind ret].
  unfold pydca.take_axis3. cbn [shape4].
  change (forallb (in_bounds 21) pydca.qq) with true. cbn [bind ret].
  eexists. split; [reflexivity|]. split.
  { repeat split. exact Hr. }
  split.
  - intros i a Ha. cbn [h at2]. now rewrite qq_state.
  - intros i j a b Ha Hb. cbn [J at4]. now rewrite !qq_state.
Qed.

(** [plmdca] moves pydca's gap state to the front: on a model with 21
    states the result has the same shape, symbol 0 reads pydca's state 20
    and symbol [a + 1] reads state [a], in the fields and on both symbol
    axes of the couplings, and every state is read by some symbol. *)
Theorem plmdca_moves_gap_first (m : PottsModel) (L : nat) (n : Z) :
  well_formed L m ->
  exists m',
    pydca.plmdca m n = inr (m', n)
    /\ well_formed L m'
    /\ (forall i a, (a < 21)%nat ->
          at2 (h m') i a = at2 (h m) i (state_of a))
    /\ (forall i j a b, (a < 21)%nat -> (b < 21)%nat ->
          at4 (J m') i j a b = at4 (J m) i j (state_of a) (state_of b))
    /\ (forall s, (s < 21)%nat ->
          exists a, (a < 21)%nat /\ state_of a = s).
Proof.
  intros Hwf. destruct (plmdca_spec m L n Hwf) as (m' & Hrun & Hwf' & Hh & HJ).
  exists m'. repeat split; try assumption; try apply Hwf'.
  intros s Hs. destruct (Nat.eq_dec s 20%nat) as [->|Hn].
  - exists 0%nat. split; [lia|reflexivity].
  - exists (S s). split; [lia|reflexivity].
Qed.

Lemma plmdca_moves_gap_first_witness :
  exists m',
    pydca.plmdca toy_model 7 = inr (m', 7%Z)
    /\ well_formed 2 m'
    /\ (forall i a, (a < 21)%nat ->
          at2 (h m') i a = at2 (h toy_model) i (state_of a))
    /\ (forall i j a b, (a < 21)%nat -> (b < 21)%nat ->
          at4 (J m') i j a b
          = at4 (J toy_model) i j (state_of a) (state_of b))
    /\ (forall s, (s < 21)%nat ->
          exists a, (a < 21)%nat /\ state_of a = s).
Proof.
  apply (plmdca_moves_gap_first toy_model 2 7).
  repeat split.
Defined.

(** The energy of a sequence under the model [plmdca] returns reads each
    letter at its pydca state: the native energy is the negated Potts sum
    of the model pydca gave, at the states [state_of s[i]]. *)
Theorem native_energy_after_plmdca (seq : string) (m : PottsModel) (n : Z)
    (D : arr2 R) (dc : option R) (sc : option Z) :
  seq <> EmptyString ->
  well_formed (String.length seq) m ->
  distance_ok (String.length seq) D dc ->
  let L := String.length seq in
  exists m' mask,
    pydca.plmdca m n = inr (m', n)
    /\ interaction_mask L D dc sc = inr mask
    /\ dca_frustratometer.compute_native_energy seq m' D dc sc
       = inr (big_sum L (fun i => - at2 (h m) i (state_of (sym seq i)))
              + big_sum L (fun i => big_sum L (fun j =>
                  - at4 (J m) i j (state_of (sym seq i))
                        (state_of (sym seq j))
                  * at2 mask i j)) / 2).
Proof.
  intros Hne Hwf HD L.
  destruct (plmdca_spec m L n Hwf) as (m' & Hrun & Hwf' & Hh & HJ).
  destruct (interaction_mask_spec L D dc sc HD) as (mask & Hm & _).
  exists m', mask. split; [exact Hrun|]. split; [exact Hm|].
  rewrite (native_energy_value seq m' L D dc sc mask Hne Hwf'
             (Nat.le_refl _) Hm).
  fold L. f_equal. f_equal.
  - apply big_sum_ext. intros i Hi. now rewrite Hh by (apply sym_lt, Hi).
  - f_equal. apply big_sum_ext. intros i Hi. apply big_sum_ext. intros j Hj.
    now rewrite HJ by (apply sym_lt; assumption).
Qed.

Lemma native_energy_after_plmdca_witness :
  exists m' mask,
    pydca.plmdca toy_model 7 = inr (m', 7%Z)
    /\ interaction_mask 2 toy_distances None None = inr mask
    /\ dca_frustratometer.compute_native_energy
         "AC" m' toy_distances None None
       = inr (big_sum 2 (fun i =>
                - at2 (h toy_model) i (state_of (sym "AC" i)))
              + big_sum 2 (fun i => big_sum 2 (fun j =>
                  - at4 (J toy_model) i j (state_of (sym "AC" i))
                        (state_of (sym "AC" j))
                  * at2 mask i j)) / 2).
Proof.
  apply (native_energy_after_plmdca "AC" toy_model 7 toy_distances None None).
  - discriminate.
  - repeat split.
  - left. reflexivity.
Defined.

(** A model with fewer than 21 states is refused: state 20 is asked for
    first, and the index is out of bounds. *)
Theorem plmdca_needs_21_states (m : PottsModel) (n : Z) :
  (cols2 (h m) < 21)%nat -> pydca.plmdca m n = inl IndexError.
Proof.
  intros Hc. unfold pydca.plmdca, pydca.take_cols.
  assert (Hb : in_bounds (cols2 (h m)) 20 = false).
  { unfold in_bounds. apply andb_false_iff. right. apply Z.ltb_ge. lia. }
  unfold pydca.qq. cbn [forallb]. rewrite Hb. reflexivity.
Qed.

Lemma plmdca_needs_21_states_witness :
  pydca.plmdca
    {| h := Arr2 2 20 (fun _ _ => 0);
       J := Arr4 (2%nat, 2%nat, 20%nat, 20%nat) (fun _ _ _ _ => 0) |} 7
  = inl IndexError.
Proof.
  apply plmdca_needs_21_states. simpl. lia.
Defined.

Lemma mfdca_spec (N q : nat) (couplings fields : arr2 R) :
  rows2 couplings = (N * q)%nat -> cols2 couplings = (N * q)%nat ->
  rows2 fields = N -> cols2 fields = q ->
  exists m,
    pydca.mfdca N (S q) couplings fields = inr (m, N, S q)
    /\ rows2 (h m) = N /\ cols2 (h m) = S q
    /\ shape4 (J m) = (N, N, S q, S q)
    /\ (forall i, at2 (h m) i 0 = 0)
    /\ (forall i a, at2 (h m) i (S a) = at2 fields i a)
    /\ (forall i j b, at4 (J m) i j 0 b = 0)
    /\ (forall i j a, at4 (J m) i j a 0 = 0)
    /\ (forall i j a b, (i < N)%nat -> (j < N)%nat -> (a < q)%nat ->
          (b < q)%nat ->
          at4 (J m) i j (S a) (S b)
          = at2 couplings (i * q + a)%nat (j * q + b)%nat).
Proof.
  intros Hcr Hcc Hfr Hfc. unfold pydca.mfdca. cbn [Nat.eqb].
  replace (S q - 1)%nat with q by lia.
  unfold pydca.reshape4. rewrite Hcr, Hcc.
  replace (N * q * (N * q) =? N * q * N * q)%nat with true
    by (symmetry; apply Nat.eqb_eq; ring).
  cbn [bind ret]. unfold pydca.concatenate_cols. cbn [pydca.zeros2 rows2 cols2].
  rewrite Hfr, Nat.eqb_refl. cbn [bind ret].
  unfold pydca.concatenate_axis1. cbn [pydca.zeros4 shape4].
  rewrite !Nat.eqb_refl. cbn [andb bind ret].
  unfold pydca.concatenate_axis3. cbn [pydca.zeros4 shape4 Nat.add].
  rewrite !Nat.eqb_refl. cbn [andb bind ret].
  eexists. split; [reflexivity|].
  cbn [h J pydca.transpose_0213 pydca.zeros2 pydca.zeros4 shape4 rows2 cols2
       at2 at4].
  split; [reflexivity|]. split; [now rewrite Hfc|].
  split; [f_equal; f_equal; lia|].
  split; [reflexivity|]. split.
  { intros i a. cbn [Nat.ltb Nat.leb Nat.sub]. now rewrite Nat.sub_0_r. }
  split.
  { intros i j b. destruct b; reflexivity. }
  split.
  { intros i j a. reflexivity. }
  intros i j a b Hi Hj Ha Hb.
  cbn [Nat.ltb Nat.leb Nat.sub]. rewrite !Nat.sub_0_r.
  assert (Hflat : (((i * q + a) * N + j) * q + b
                   = N * q * (i * q + a) + (j * q + b))%nat) by ring.
  assert (Hlt : (j * q + b < N * q)%nat) by nia.
  f_equal.
  - symmetry. apply (Nat.div_unique _ _ _ (j * q + b)%nat Hlt Hflat).
  - symmetry. apply (Nat.mod_unique _ _ (i * q + a)%nat _ Hlt Hflat).
Qed.

(** In the model [mfdca] assembles for [q + 1] states, the gap, symbol 0,
    has no field and no coupling; the field of symbol [a + 1] is the field
    of state [a], and the coupling of the symbols [a + 1] and [b + 1] at the
    positions [i] and [j] is the entry [(i * q + a, j * q + b)] of the
    matrix of couplings. *)
Theorem mfdca_gap_has_no_energy_terms (N q : nat)
    (couplings fields : arr2 R) :
  (0 < N)%nat ->
  rows2 couplings = (N * q)%nat -> cols2 couplings = (N * q)%nat ->
  rows2 fields = N -> cols2 fields = q ->
  exists m,
    pydca.mfdca N (S q) couplings fields = inr (m, N, S q)
    /\ rows2 (h m) = N /\ cols2 (h m) = S q
    /\ shape4 (J m) = (N, N, S q, S q)
    /\ (forall i, at2 (h m) i 0 = 0)
    /\ (forall i a, at2 (h m) i (S a) = at2 fields i a)
    /\ (forall i j b, at4 (J m) i j 0 b = 0)
    /\ (forall i j a, at4 (J m) i j a 0 = 0)
    /\ (forall i j a b, (i < N)%nat -> (j < N)%nat -> (a < q)%nat ->
          (b < q)%nat ->
          at4 (J m) i j (S a) (S b)
          = at2 couplings (i * q + a)%nat (j * q + b)%nat).
Proof. intros _. apply mfdca_spec. Qed.

Lemma mfdca_gap_has_no_energy_terms_witness :
  exists m,
    pydca.mfdca 2 (S 20) (Arr2 40 40 (fun r c => INR (r + c)))
                (Arr2 2 20 (fun i a => INR a))
    = inr (m, 2%nat, S 20)
    /\ rows2 (h m) = 2%nat /\ cols2 (h m) = S 20
    /\ shape4 (J m) = (2%nat, 2%nat, S 20, S 20)
    /\ (forall i, at2 (h m) i 0 = 0)
    /\ (forall i a,
          at2 (h m) i (S a) = at2 (Arr2 2 20 (fun i a => INR a)) i a)
    /\ (forall i j b, at4 (J m) i j 0 b = 0)
    /\ (forall i j a, at4 (J m) i j a 0 = 0)
    /\ (forall i j a b, (i < 2)%nat -> (j < 2)%nat -> (a < 20)%nat ->
          (b < 20)%nat ->
          at4 (J m) i j (S a) (S b)
          = at2 (Arr2 40 40 (fun r c => INR (r + c)))
                (i * 20 + a)%nat (j * 20 + b)%nat).
Proof.
  apply (mfdca_gap_has_no_energy_terms 2 20
           (Arr2 40 40 (fun r c => INR (r + c)))
           (Arr2 2 20 (fun i a => INR a))); try reflexivity.
  lia.
Defined.

Lemma sym_gaps (n i : nat) : sym (gaps n) i = 0%nat.
Proof.
  unfold sym, iat, seq_index_of, array. cbn [idx1 at1].
  revert i. induction n as [|n IH]; intros i.
  - destruct i; reflexivity.
  - destruct i as [|i]; [reflexivity|]. apply IH.
Qed.

Lemma gaps_length (n : nat) : String.length (gaps n) = n.
Proof. induction n; simpl; [reflexivity|now f_equal]. Qed.

(** Under a model of [mfdca] with 21 states, the sequence of gaps alone has
    the native energy 0, whatever the distance matrix and the cutoffs. *)
Theorem all_gaps_have_zero_energy_under_mfdca (N : nat)
    (couplings fields : arr2 R) (D : arr2 R) (dc : option R)
    (sc : option Z) :
  (0 < N)%nat ->
  rows2 couplings = (N * 20)%nat -> cols2 couplings = (N * 20)%nat ->
  rows2 fields = N -> cols2 fields = 20%nat ->
  distance_ok N D dc ->
  exists m e,
    pydca.mfdca N 21 couplings fields = inr (m, N, 21%nat)
    /\ dca_frustratometer.compute_native_energy (gaps N) m D dc sc = inr e
    /\ e = 0.
Proof.
  intros HN Hcr Hcc Hfr Hfc HD.
  destruct (mfdca_spec N 20 couplings fields Hcr Hcc Hfr Hfc)
    as (m & Hrun & Hr & Hc & HJ & Hh0 & _ & HJ0 & _).
  pose proof (gaps_length N) as Hlen.
  destruct (interaction_mask_spec (String.length (gaps N)) D dc sc)
    as (mask & Hm & _); [now rewrite Hlen|].
  exists m. eexists. split; [exact Hrun|]. split.
  { apply (native_energy_value (gaps N) m N D dc sc mask).
    - destruct N; [lia|discriminate].
    - repeat split; assumption.
    - rewrite Hlen. apply Nat.le_refl.
    - exact Hm. }
  rewrite !big_sum_all_zero; [lra| |].
  - intros i _. apply big_sum_all_zero. intros j _.
    rewrite !sym_gaps, HJ0. lra.
  - intros i _. rewrite sym_gaps, Hh0. lra.
Qed.

Lemma all_gaps_have_zero_energy_under_mfdca_witness :
  exists m e,
    pydca.mfdca 2 21 (Arr2 40 40 (fun r c => INR (r + c)))
                (Arr2 2 20 (fun i a => INR a)) = inr (m, 2%nat, 21%nat)
    /\ dca_frustratometer.compute_native_energy
         (gaps 2) m toy_distances None None = inr e
    /\ e = 0.
Proof.
  apply (all_gaps_have_zero_energy_under_mfdca 2
           (Arr2 40 40 (fun r c => INR (r + c)))
           (Arr2 2 20 (fun i a => INR a)) toy_distances None None);
    try reflexivity.
  - lia.
  - left. reflexivity.
Defined.

(** ** The methods that pass a sequence on *)

(** [decoy_energy] never reads the two caches: it hands a sequence to
    [native_energy] and to [decoy_fluctuation], so two objects with the same
    sequence, model and mask get the same answer whatever they have stored.
    It leaves the stored native energy as it was and stores the fluctuation
    under the kind. *)
Theorem decoy_energy_never_reads_caches `{frustration.api}
    (self other : Frustratometer.t) (kind : string)
    (sequence : option string) :
  Frustratometer.sequence other = Frustratometer.sequence self ->
  Frustratometer.potts_model other = Frustratometer.potts_model self ->
  Frustratometer.mask other = Frustratometer.mask self ->
  returned (Frustratometer.decoy_energy other kind sequence)
  = returned (Frustratometer.decoy_energy self kind sequence)
  /\ forall self' d,
       Frustratometer.decoy_energy self kind sequence = inr (self', d) ->
       Frustratometer._native_energy self'
       = Frustratometer._native_energy self
       /\ is_Some (Frustratometer._decoy_fluctuation self' !! kind).
Proof.
  intros Hs Hp Hm.
  unfold Frustratometer.decoy_energy, Frustratometer.native_energy,
    Frustratometer.decoy_fluctuation.
  rewrite Hs, Hp, Hm.
  set (seq := default (Frustratometer.sequence self) sequence).
  destruct (frustration.compute_native_energy seq
              (Frustratometer.potts_model self) (Frustratometer.mask self)
              false false) as [err|e]; cbn [bind ret fst snd returned].
  { split; [reflexivity|]. intros self' d Hd. discriminate Hd. }
  cbn [default from_option Datatypes.id Frustratometer.potts_model
       Frustratometer.mask].
  rewrite Hp, Hm.
  destruct (Frustratometer.compute_fluctuation kind seq
              (Frustratometer.potts_model self) (Frustratometer.mask self))
    as [err|f]; cbn [bind ret fst snd returned].
  { split; [reflexivity|]. intros self' d Hd. discriminate Hd. }
  split; [reflexivity|]. intros self' d Hd.
  injection Hd as <- _. split; [reflexivity|].
  cbn [Frustratometer.set_decoy_fluctuation
       Frustratometer._decoy_fluctuation].
  rewrite lookup_insert_eq. eexists. reflexivity.
Qed.

Lemma decoy_energy_never_reads_caches_witness :
  let api := frustration.spec_api no_pair_kind no_pair_kind no_pair_kind in
  let stale := Frustratometer.set_native_energy ladder_object 7 in
  returned (Frustratometer.decoy_energy stale "singleresidue" None)
  = returned (Frustratometer.decoy_energy ladder_object "singleresidue" None)
  /\ forall self' d,
       Frustratometer.decoy_energy ladder_object "singleresidue" None
       = inr (self', d) ->
       Frustratometer._native_energy self'
       = Frustratometer._native_energy ladder_object
       /\ is_Some (Frustratometer._decoy_fluctuation self'
                     !! "singleresidue"%string).
Proof.
  intros api stale.
  apply (decoy_energy_never_reads_caches ladder_object stale
           "singleresidue" None); reflexivity.
Defined.

(** A stored native energy of exactly 0 is not used: [not 0.0] holds, so
    the call without a sequence answers as a new object with the same
    sequence, model and mask does, with the flags of this call, and stores
    what it returns. *)
Theorem zero_native_energy_is_computed_again `{frustration.api}
    (self : Frustratometer.t)
    (ignore_couplings_of_gaps ignore_fields_of_gaps : bool) :
  Frustratometer._native_energy self = Some 0 ->
  let new := Frustratometer.init (Frustratometer.sequence self)
               (Frustratometer.potts_model self)
               (Frustratometer.mask self) in
  returned (Frustratometer.native_energy self None ignore_couplings_of_gaps
              ignore_fields_of_gaps)
  = returned (Frustratometer.native_energy new None ignore_couplings_of_gaps
                ignore_fields_of_gaps)
  /\ forall self' e,
       Frustratometer.native_energy self None ignore_couplings_of_gaps
         ignore_fields_of_gaps = inr (self', e) ->
       Frustratometer._native_energy self' = Some e.
Proof.
  intros H0 new. unfold Frustratometer.native_energy. rewrite H0.
  unfold Frustratometer.not_. destruct (Req_dec_T 0 0) as [_|Hn].
  2: { exfalso. apply Hn. reflexivity. }
  cbn [new Frustratometer.init Frustratometer._native_energy
       Frustratometer.sequence Frustratometer.potts_model
       Frustratometer.mask].
  destruct (frustration.compute_native_energy
              (Frustratometer.sequence self)
              (Frustratometer.potts_model self) (Frustratometer.mask self)
              ignore_couplings_of_gaps ignore_fields_of_gaps) as [err|e];
    cbn [bind ret returned].
  - split; [reflexivity|]. intros self' e He. discriminate He.
  - split; [reflexivity|]. intros self' e' He.
    injection He as <- <-. reflexivity.
Qed.

Lemma zero_native_energy_is_computed_again_witness :
  let api := frustration.spec_api no_pair_kind no_pair_kind no_pair_kind in
  let self := Frustratometer.set_native_energy gap_object 0 in
  let new := Frustratometer.init (Frustratometer.sequence self)
               (Frustratometer.potts_model self)
               (Frustratometer.mask self) in
  returned (Frustratometer.native_energy self None false true)
  = returned (Frustratometer.native_energy new None false true)
  /\ forall self' e,
       Frustratometer.native_energy self None false true = inr (self', e) ->
       Frustratometer._native_energy self' = Some e.
Proof.
  intros api self.
  apply (zero_native_energy_is_computed_again self false true).
  reflexivity.
Defined.
